(** * Response introspection and field mapping of the API integration wizard

    A shallow embedding of the mapping engine of [ApiIntegrationWizard.tsx]:
    the path catalogue ([extractJsonPaths]), the positional statistics
    ([getPositionalArrayLength], [getPositionalSampleValues]), the value
    resolver ([extractValue]), the mapping evaluator ([processResultsData])
    and the mapping editors ([addMapping], [updateMapping]).

    JavaScript values are an inductive type; a property read that JavaScript
    rejects with a TypeError is a [Throw] of the [result] monad, so that
    "never raises" is a statement about the embedded code and not a
    convention, and so is the TypeError of [String()] on an object without a
    usable [toString].  Strings are sequences of code units below 256.  A
    property read sees the own properties (what [JSON.parse] builds, plus
    [length] and the indexed elements of arrays and strings) and, behind
    them, the members inherited from the built-in prototypes. *)

From Stdlib Require Import List String Ascii ZArith Bool Lia DecimalString.
From Stdlib Require DecimalPos.
Import ListNotations.
Local Open Scope string_scope.

(* ================================================================== *)
(** ** Characters and strings *)

Module Str.

Definition is_digit (c : ascii) : bool :=
  (Ascii.leb "0" c && Ascii.leb c "9")%char.

Definition is_lower (c : ascii) : bool :=
  (Ascii.leb "a" c && Ascii.leb c "z")%char.

Definition is_upper (c : ascii) : bool :=
  (Ascii.leb "A" c && Ascii.leb c "Z")%char.

(** The class [\w] of a JavaScript regular expression. *)
Definition is_word (c : ascii) : bool :=
  is_lower c || is_upper c || is_digit c || Ascii.eqb c "_".

(** White space and line terminators that [parseInt] skips. *)
Definition is_space (c : ascii) : bool :=
  let n := nat_of_ascii c in
  (Nat.leb 9 n && Nat.leb n 13) || Nat.eqb n 32 || Nat.eqb n 160.

Fixpoint all (p : ascii -> bool) (s : string) : bool :=
  match s with
  | EmptyString => true
  | String c rest => p c && all p rest
  end.

Fixpoint mem (a : ascii) (s : string) : bool :=
  match s with
  | EmptyString => false
  | String c rest => Ascii.eqb c a || mem a rest
  end.

Definition nonempty (s : string) : bool :=
  match s with EmptyString => false | String _ _ => true end.

(** [s.split(sep)] for a one-character separator: never the empty list. *)
Fixpoint split (sep : ascii) (s : string) : list string :=
  match s with
  | EmptyString => [EmptyString]
  | String c rest =>
      if Ascii.eqb c sep then EmptyString :: split sep rest
      else match split sep rest with
           | [] => [String c EmptyString]
           | piece :: pieces => String c piece :: pieces
           end
  end.

(** Longest prefix of characters satisfying [p], and what follows it. *)
Fixpoint span (p : ascii -> bool) (s : string) : string * string :=
  match s with
  | EmptyString => (EmptyString, EmptyString)
  | String c rest =>
      if p c then let (pre, post) := span p rest in (String c pre, post)
      else (EmptyString, s)
  end.

(** [Some body] when [s] is [body] followed by one closing bracket. *)
Fixpoint strip_closing (s : string) : option string :=
  match s with
  | EmptyString => None
  | String c rest =>
      match rest with
      | EmptyString => if Ascii.eqb c "]" then Some EmptyString else None
      | String _ _ => option_map (String c) (strip_closing rest)
      end
  end.

Fixpoint drop_while (p : ascii -> bool) (s : string) : string :=
  match s with
  | EmptyString => EmptyString
  | String c rest => if p c then drop_while p rest else s
  end.

(** Value of one digit in a radix up to 16, [None] for any other character. *)
Definition digit_value (radix : Z) (c : ascii) : option Z :=
  let n := Z.of_nat (nat_of_ascii c) in
  let v := if is_digit c then Some (n - 48)%Z
           else if (Ascii.leb "a" c && Ascii.leb c "f")%char then Some (n - 87)%Z
           else if (Ascii.leb "A" c && Ascii.leb c "F")%char then Some (n - 55)%Z
           else None in
  match v with
  | Some d => if Z.ltb d radix then Some d else None
  | None => None
  end.

(** Value of the longest prefix of digits, [None] when there is no digit. *)
Fixpoint digits_from (radix : Z) (acc : option Z) (s : string) : option Z :=
  match s with
  | EmptyString => acc
  | String c rest =>
      match digit_value radix c with
      | Some d =>
          digits_from radix
            (Some (match acc with Some a => (a * radix + d)%Z | None => d end)) rest
      | None => acc
      end
  end.

End Str.

(* ================================================================== *)
(** ** JavaScript values *)

(** A number is kept up to what the engine observes of it: whether it is
    falsy, its printed form, and its use as an index.  [Int z] is a double
    with an integral value ([Int 0] stands for both zeros), [Frac text] any
    other finite double, carried by the text [String()] prints for it. *)
Inductive number : Type :=
| NaN
| Infinity (negative : bool)
| Int (z : Z)
| Frac (text : string).

Unset Elimination Schemes.
Inductive value : Type :=
| VUndefined
| VNull
| VBool (b : bool)
| VNum (n : number)
| VStr (s : string)
| VArr (elements : list value)
| VObj (properties : list (string * value)).
Set Elimination Schemes.

(** An object lists its own enumerable properties in the order [Object.keys]
    reports them; a JavaScript object holds each key once. *)

Section ValueInduction.
Variable P : value -> Prop.
Hypothesis Hundefined : P VUndefined.
Hypothesis Hnull : P VNull.
Hypothesis Hbool : forall b, P (VBool b).
Hypothesis Hnum : forall n, P (VNum n).
Hypothesis Hstr : forall s, P (VStr s).
Hypothesis Harr : forall xs, Forall P xs -> P (VArr xs).
Hypothesis Hobj : forall kvs, Forall (fun kv => P (snd kv)) kvs -> P (VObj kvs).

Fixpoint value_ind (v : value) : P v :=
  match v with
  | VUndefined => Hundefined
  | VNull => Hnull
  | VBool b => Hbool b
  | VNum n => Hnum n
  | VStr s => Hstr s
  | VArr xs =>
      Harr xs
        ((fix elems (l : list value) : Forall P l :=
            match l with
            | [] => Forall_nil _
            | x :: l' => Forall_cons x (value_ind x) (elems l')
            end) xs)
  | VObj kvs =>
      Hobj kvs
        ((fix props (l : list (string * value))
            : Forall (fun kv => P (snd kv)) l :=
            match l with
            | [] => Forall_nil _
            | kv :: l' =>
                Forall_cons (P := fun kv => P (snd kv)) kv
                  (value_ind (snd kv)) (props l')
            end) kvs)
  end.
End ValueInduction.

(** ** Values met at run time

    A document is a [value].  A property read may leave the document: every
    object inherits the members of its prototype, which are built-in
    functions, and [__proto__] reads the prototype object itself.  A [jsval]
    is a document value, a built-in prototype object or a built-in function.
    The member tables are those of ECMAScript 2024 with its Annex B. *)
Inductive prototype : Type :=
| ObjectPrototype
| ArrayPrototype
| StringPrototype
| NumberPrototype
| BooleanPrototype.

Inductive jsval : Type :=
| J (v : value)
| Proto (p : prototype)
| Builtin (owner : prototype) (name : string).

Coercion J : value >-> jsval.

(** Exceptions.  The modelled code can meet one: the TypeError of a property
    read on [null] or [undefined] and of [String()] applied to an object that
    has no usable [toString]. *)
Inductive error : Type := TypeError.

Inductive result (A : Type) : Type :=
| Ok (a : A)
| Throw (e : error).
Arguments Ok {A} & a.
Arguments Throw {A} e.

Definition bind {A B : Type} (r : result A) (k : A -> result B) : result B :=
  match r with
  | Ok a => k a
  | Throw e => Throw e
  end.

Notation "x <- r ;; k" := (bind r (fun x => k))
  (at level 61, r at next level, right associativity).

(** [try { body } catch { handler }]. *)
Definition try_catch {A : Type} (body : result A) (handler : error -> result A)
  : result A :=
  match body with
  | Ok a => Ok a
  | Throw e => handler e
  end.

Fixpoint mapM {A B : Type} (f : A -> result B) (l : list A) : result (list B) :=
  match l with
  | [] => Ok []
  | a :: rest => b <- f a ;; bs <- mapM f rest ;; Ok (b :: bs)
  end.

Module Js.

Definition num_falsy (n : number) : bool :=
  match n with
  | NaN => true
  | Int z => Z.eqb z 0
  | _ => false
  end.

(** [!!v]. *)
Definition truthy (v : jsval) : bool :=
  match v with
  | J VUndefined | J VNull => false
  | J (VBool b) => b
  | J (VNum n) => negb (num_falsy n)
  | J (VStr s) => Str.nonempty s
  | J (VArr _) | J (VObj _) => true
  | Proto _ | Builtin _ _ => true
  end.

(** [a || b]. *)
Definition or (a b : jsval) : jsval := if truthy a then a else b.

Definition typeof (v : jsval) : string :=
  match v with
  | J VUndefined => "undefined"
  | J VNull | J (VArr _) | J (VObj _) => "object"
  | J (VBool _) => "boolean"
  | J (VNum _) => "number"
  | J (VStr _) => "string"
  | Proto _ => "object"
  | Builtin _ _ => "function"
  end.

(** [Array.isArray(v)]; [Array.prototype] is itself an (empty) array. *)
Definition isArray (v : jsval) : bool :=
  match v with
  | J (VArr _) => true
  | Proto ArrayPrototype => true
  | _ => false
  end.

(** The elements of an array. *)
Definition elements (v : jsval) : option (list value) :=
  match v with
  | J (VArr xs) => Some xs
  | Proto ArrayPrototype => Some []
  | _ => None
  end.

Definition is_null (v : jsval) : bool :=
  match v with J VNull => true | _ => false end.

(** [v === null || v === undefined]. *)
Definition nullish (v : jsval) : bool :=
  match v with J VUndefined | J VNull => true | _ => false end.

(** An integral double that every operation below treats exactly: a safe
    integer.  [String()] rounds the digits of larger integral doubles and
    prints them in exponent form from 1e21 on; statements about the printed
    form of a number carry this bound. *)
Definition safe (n : number) : bool :=
  match n with
  | Int z => Z.ltb (Z.abs z) (2 ^ 53)
  | _ => true
  end.

(** The text [String()] prints for a number; for [Int z] the decimal numeral
    of [z], which is that text for every safe integer. *)
Definition num_to_string (n : number) : string :=
  match n with
  | NaN => "NaN"
  | Infinity false => "Infinity"
  | Infinity true => "-Infinity"
  | Int z => NilZero.string_of_int (Z.to_int z)
  | Frac text => text
  end.

Definition join (sep : string) (pieces : list string) : string :=
  match pieces with
  | [] => ""
  | p :: rest => fold_left (fun acc q => acc ++ sep ++ q) rest p
  end.

(** Own property of an object, first-match on the property list. *)
Fixpoint own (kvs : list (string * value)) (key : string) : value :=
  match kvs with
  | [] => VUndefined
  | (k, v) :: rest => if String.eqb k key then v else own rest key
  end.

Definition has_own (kvs : list (string * value)) (key : string) : bool :=
  existsb (fun kv => String.eqb (fst kv) key) kvs.

(** A property name is an array index when it is the decimal numeral of a
    natural number, without sign, space or leading zero. *)
Definition index_of_key (key : string) : option nat :=
  match key with
  | EmptyString => None
  | String c rest =>
      if Str.all Str.is_digit key
         && (negb (Ascii.eqb c "0") || negb (Str.nonempty rest))
      then option_map Z.to_nat (Str.digits_from 10 None key)
      else None
  end.

Definition char_at (s : string) (i : nat) : value :=
  match String.get i s with
  | Some c => VStr (String c EmptyString)
  | None => VUndefined
  end.

(** The string-named members each built-in prototype holds, [__proto__]
    apart. *)
Definition members (p : prototype) : list string :=
  match p with
  | ObjectPrototype =>
      [ "constructor"; "__defineGetter__"; "__defineSetter__";
        "hasOwnProperty"; "__lookupGetter__"; "__lookupSetter__";
        "isPrototypeOf"; "propertyIsEnumerable"; "toString"; "valueOf";
        "toLocaleString" ]
  | ArrayPrototype =>
      [ "constructor"; "at"; "concat"; "copyWithin"; "entries"; "every";
        "fill"; "filter"; "find"; "findIndex"; "findLast"; "findLastIndex";
        "flat"; "flatMap"; "forEach"; "includes"; "indexOf"; "join"; "keys";
        "lastIndexOf"; "map"; "pop"; "push"; "reduce"; "reduceRight";
        "reverse"; "shift"; "slice"; "some"; "sort"; "splice";
        "toLocaleString"; "toReversed"; "toSorted"; "toSpliced"; "toString";
        "unshift"; "values"; "with" ]
  | StringPrototype =>
      [ "constructor"; "anchor"; "at"; "big"; "blink"; "bold"; "charAt";
        "charCodeAt"; "codePointAt"; "concat"; "endsWith"; "fixed";
        "fontcolor"; "fontsize"; "includes"; "indexOf"; "isWellFormed";
        "italics"; "lastIndexOf"; "link"; "localeCompare"; "match";
        "matchAll"; "normalize"; "padEnd"; "padStart"; "repeat"; "replace";
        "replaceAll"; "search"; "slice"; "small"; "split"; "startsWith";
        "strike"; "sub"; "substr"; "substring"; "sup"; "toLocaleLowerCase";
        "toLocaleUpperCase"; "toLowerCase"; "toString"; "toUpperCase";
        "toWellFormed"; "trim"; "trimEnd"; "trimLeft"; "trimRight";
        "trimStart"; "valueOf" ]
  | NumberPrototype =>
      [ "constructor"; "toExponential"; "toFixed"; "toLocaleString";
        "toPrecision"; "toString"; "valueOf" ]
  | BooleanPrototype => [ "constructor"; "toString"; "valueOf" ]
  end.

Definition is_member (p : prototype) (key : string) : bool :=
  existsb (String.eqb key) (members p).

(** The prototype of a value, [None] for [null], [undefined] and
    [Object.prototype], whose prototype is [null].  (The prototype of a
    function is not modelled.) *)
Definition prototype_of (v : jsval) : option prototype :=
  match v with
  | J (VObj _) => Some ObjectPrototype
  | J (VArr _) => Some ArrayPrototype
  | J (VStr _) => Some StringPrototype
  | J (VNum _) => Some NumberPrototype
  | J (VBool _) => Some BooleanPrototype
  | Proto ObjectPrototype => None
  | Proto _ => Some ObjectPrototype
  | _ => None
  end.

(** The own property [key] of [v], when it has one. *)
Definition own_prop (v : jsval) (key : string) : option jsval :=
  match v with
  | J (VObj kvs) => if has_own kvs key then Some (J (own kvs key)) else None
  | J (VArr xs) =>
      if String.eqb key "length"
      then Some (J (VNum (Int (Z.of_nat (List.length xs)))))
      else match index_of_key key with
           | Some i => if Nat.ltb i (List.length xs)
                       then Some (J (nth i xs VUndefined)) else None
           | None => None
           end
  | J (VStr s) =>
      if String.eqb key "length"
      then Some (J (VNum (Int (Z.of_nat (String.length s)))))
      else match index_of_key key with
           | Some i => if Nat.ltb i (String.length s)
                       then Some (J (char_at s i)) else None
           | None => None
           end
  | Proto p =>
      if is_member p key then Some (Builtin p key)
      else if String.eqb key "length"
      then match p with
           | ArrayPrototype | StringPrototype => Some (J (VNum (Int 0)))
           | _ => None
           end
      else None
  | _ => None
  end.

(** What the prototype chain starting at [p] gives for [key]: the member of
    the first prototype that holds one, else [undefined].  [__proto__] is an
    accessor of [Object.prototype] that answers for the receiver and is
    handled by [read]. *)
Definition inherited (p : option prototype) (key : string) : jsval :=
  match p with
  | None => J VUndefined
  | Some q =>
      if is_member q key then Builtin q key
      else if String.eqb key "length"
      then match q with
           | ArrayPrototype | StringPrototype => J (VNum (Int 0))
           | _ => J VUndefined
           end
      else if is_member ObjectPrototype key then Builtin ObjectPrototype key
      else J VUndefined
  end.

(** [v[key]] on a [v] that is neither [null] nor [undefined].  Reads on a
    built-in function are outside the model (they give [undefined] here); the
    wizard makes none, its reads being guarded by [typeof v === 'object'] or
    made on documents. *)
Definition read (v : jsval) (key : string) : jsval :=
  match own_prop v key with
  | Some found => found
  | None =>
      match v with
      | Builtin _ _ => J VUndefined
      | _ =>
          if String.eqb key "__proto__"
          then match prototype_of v with
               | Some p => Proto p
               | None => J VNull
               end
          else inherited (prototype_of v) key
      end
  end.

(** [v[key]] for a string [key]. *)
Definition get_prop (v : jsval) (key : string) : result jsval :=
  if nullish v then Throw TypeError else Ok (read v key).

(** [v[n]] for a number [n]: the property named by the printed number, which
    on arrays and strings is the element at a non-negative integral [n]. *)
Definition get_elem (v : jsval) (n : number) : result jsval :=
  match v, n with
  | J (VArr xs), Int z =>
      if Z.leb 0 z then Ok (J (nth (Z.to_nat z) xs VUndefined))
      else Ok (J VUndefined)
  | J (VStr s), Int z =>
      if Z.leb 0 z then Ok (J (char_at s (Z.to_nat z))) else Ok (J VUndefined)
  | _, _ => get_prop v (num_to_string n)
  end.

(** [String(v)] on a document value.  An array prints its elements joined by
    commas, [null] and [undefined] elements as nothing.  A keyed-mapping
    prints as ["[object Object]"] through the inherited [toString]; an own
    [toString] key, which in a document never holds a function, hides it,
    and the conversion raises a TypeError. *)
Fixpoint String_of (v : value) : result string :=
  match v with
  | VUndefined => Ok "undefined"
  | VNull => Ok "null"
  | VBool true => Ok "true"
  | VBool false => Ok "false"
  | VNum n => Ok (num_to_string n)
  | VStr s => Ok s
  | VArr xs =>
      pieces <-
        (fix each (l : list value) : result (list string) :=
           match l with
           | [] => Ok []
           | x :: rest =>
               piece <- match x with
                        | VUndefined | VNull => Ok ""
                        | _ => String_of x
                        end ;;
               others <- each rest ;;
               Ok (piece :: others)
           end) xs ;;
      Ok (join "," pieces)
  | VObj kvs =>
      if has_own kvs "toString" then Throw TypeError
      else Ok "[object Object]"
  end.

(** The name a built-in function prints: aliases share one function. *)
Definition function_name (p : prototype) (name : string) : string :=
  if String.eqb name "constructor" then
    match p with
    | ObjectPrototype => "Object"
    | ArrayPrototype => "Array"
    | StringPrototype => "String"
    | NumberPrototype => "Number"
    | BooleanPrototype => "Boolean"
    end
  else if String.eqb name "trimLeft" then "trimStart"
  else if String.eqb name "trimRight" then "trimEnd"
  else name.

(** [String(v)].  The text of a built-in function is the engine's; the one
    given is V8's, and no statement below depends on it. *)
Definition to_String (v : jsval) : result string :=
  match v with
  | J d => String_of d
  | Proto ObjectPrototype => Ok "[object Object]"
  | Proto ArrayPrototype | Proto StringPrototype => Ok ""
  | Proto NumberPrototype => Ok "0"
  | Proto BooleanPrototype => Ok "false"
  | Builtin p name =>
      Ok ("function " ++ function_name p name ++ "() { [native code] }")
  end.

(** [parseInt(s)] with no radix argument: leading white space, a sign, an
    optional [0x] prefix, then the longest run of digits; [NaN] when there is
    none.  For a run of digits beyond the safe integers the double is the
    nearest one; the code uses the result as an array index only, where both
    are past every array. *)
Definition parseInt (s : string) : number :=
  let s1 := Str.drop_while Str.is_space s in
  let '(negative, s2) :=
    match s1 with
    | String "-" rest => (true, rest)
    | String "+" rest => (false, rest)
    | _ => (false, s1)
    end in
  let '(radix, s3) :=
    match s2 with
    | String "0" (String "x" rest) => (16%Z, rest)
    | String "0" (String "X" rest) => (16%Z, rest)
    | _ => (10%Z, s2)
    end in
  match Str.digits_from radix None s3 with
  | Some n => Int (if negative then (- n)%Z else n)
  | None => NaN
  end.

End Js.

(* ================================================================== *)
(** ** The wizard's data *)

Inductive ResponseFormat : Type := Json | Positional.

Inductive Target : Type := Portfolio | Organizations.

(** [internalType] is declared ['attributes' | 'data'], but [updateMapping]
    stores an unchecked string there, so it is a string here as at run time. *)
Record FieldMapping : Type := mkFieldMapping {
  id : string;
  externalPath : string;
  internalType : string;
  internalField : string
}.

Record MappingConfig : Type := mkMappingConfig {
  target : Target;
  responseFormat : ResponseFormat;
  keyPath : string;
  keyIndex : number;
  mappings : list FieldMapping
}.

Record FieldOption : Type := mkFieldOption {
  value_of : string;
  label : string
}.

Definition ATTRIBUTE_FIELDS : list FieldOption :=
  [ mkFieldOption "region" "Region";
    mkFieldOption "room_count" "Room Count";
    mkFieldOption "brand" "Brand";
    mkFieldOption "property_code" "Property Code" ].

Definition DATA_FIELDS : list FieldOption :=
  [ mkFieldOption "occupancy" "Occupancy" ].

Definition FAKE_INTERNAL_ENTITY_MAP : list (string * string) :=
  [ ("HNLMC", "Waikiki Beach Marriott");
    ("RENEW", "Hotel Renew");
    ("ABQMC", "Albuquerque Marriott");
    ("ATLBC", "Atlanta Marriott Buckhead");
    ("BDRSF", "DoubleTree Stamford");
    ("BWGWT", "Holiday Inn Bowling Green");
    ("CAEGS", "Embassy Suites Columbia");
    ("CHSEM", "Embassy Suites Charleston");
    ("CIDMC", "Cedar Rapids Marriott");
    ("CLTBR", "Charlotte Airport Hilton");
    ("CRWEM", "Embassy Suites Charleston WV");
    ("CVGEM", "Holiday Inn Cincinnati");
    ("DALEM", "Embassy Suites DFW");
    ("DALHS", "Hampton Suites Mesquite");
    ("DENAU", "Crowne Plaza Denver");
    ("DSMDN", "Embassy Suites Des Moines");
    ("DSMSI", "Sheraton West Des Moines");
    ("DTWWI", "Westin Southfield");
    ("DVPTR", "Radisson Quad City");
    ("FLLMC", "Marriott Coral Springs");
    ("FNLCO", "Hilton Fort Collins");
    ("FYVSP", "Hampton Inn Springdale");
    ("GSOGB", "Embassy Suites Greensboro");
    ("GSOHW", "Homewood Suites Greensboro");
    ("GSPES", "Embassy Suites Greenville") ].

(** The directory as the plain object it is: its entries are own properties,
    and a read also finds what [Object.prototype] lends every object. *)
Definition directory_object : value :=
  VObj (map (fun entry => (fst entry, VStr (snd entry))) FAKE_INTERNAL_ENTITY_MAP).

(** [a || b] on strings, [None] standing for [undefined]. *)
Definition or_string (a : option string) (b : string) : string :=
  match a with
  | Some s => if Str.nonempty s then s else b
  | None => b
  end.

Definition getOrgNameFromKey (keyStr : string) : jsval :=
  Js.or (Js.read directory_object keyStr) (VStr ("Property " ++ keyStr)).

(* ================================================================== *)
(** ** Path catalogue *)

Fixpoint extractJsonPaths (obj : value) (prefix : string) : list string :=
  match obj with
  | VArr xs =>
      (prefix ++ "[*]")
        :: match xs with
           | [] => []
           | first :: _ => extractJsonPaths first (prefix ++ "[*]")
           end
  | VObj kvs =>
      (fix each (l : list (string * value)) : list string :=
         match l with
         | [] => []
         | (key, child) :: rest =>
             let newPath := prefix ++ "." ++ key in
             ((newPath :: extractJsonPaths child newPath) ++ each rest)%list
         end) kvs
  | _ => []
  end.

(** The catalogue with every path kept as the descents that built it. *)
Inductive segment : Type :=
| Key (key : string)
| Star.

Definition render_segment (sg : segment) : string :=
  match sg with
  | Key key => "." ++ key
  | Star => "[*]"
  end.

Definition render (prefix : string) (segments : list segment) : string :=
  fold_left (fun acc sg => acc ++ render_segment sg) segments prefix.

Fixpoint catalog (obj : value) : list (list segment) :=
  match obj with
  | VArr xs =>
      [Star]
        :: match xs with
           | [] => []
           | first :: _ => map (cons Star) (catalog first)
           end
  | VObj kvs =>
      (fix each (l : list (string * value)) : list (list segment) :=
         match l with
         | [] => []
         | (key, child) :: rest =>
             (([Key key] :: map (cons (Key key)) (catalog child)) ++ each rest)%list
         end) kvs
  | _ => []
  end.

(** Every key of every object occurs once among that object's keys. *)
Fixpoint distinct (keys : list string) : bool :=
  match keys with
  | [] => true
  | k :: rest => negb (existsb (String.eqb k) rest) && distinct rest
  end.

Fixpoint well_formed (v : value) : bool :=
  match v with
  | VArr xs => forallb well_formed xs
  | VObj kvs =>
      distinct (map fst kvs)
      && (fix each (l : list (string * value)) : bool :=
            match l with
            | [] => true
            | (_, child) :: rest => well_formed child && each rest
            end) kvs
  | _ => true
  end.

(* ================================================================== *)
(** ** Positional statistics *)

Definition getPositionalArrayLength (data : value) : nat :=
  if negb (Js.truthy data) then 0
  else match data with
       | VArr xs =>
           if Nat.eqb (List.length xs) 0 then 0
           else
             let firstItem := nth 0 xs VUndefined in
             match firstItem with
             | VArr ys => List.length ys
             | _ =>
                 if negb (String.eqb (Js.typeof firstItem) "object")
                    || Js.is_null firstItem
                 then List.length xs
                 else 0
             end
       | _ => 0
       end.

Definition isLikelyPositionalFormat (data : value) : bool :=
  match data with
  | VArr xs =>
      if Nat.eqb (List.length xs) 0 then false
      else
        let firstItem := nth 0 xs VUndefined in
        if Js.isArray firstItem then true
        else if negb (String.eqb (Js.typeof firstItem) "object")
                || Js.is_null firstItem
             then true
        else false
  | _ => false
  end.

Section Samples.
(** [JSON.stringify], a library function; the number of samples does not
    depend on what it prints. *)
Variable JSON_stringify : value -> value.

Definition sample (v : value) : value :=
  if String.eqb (Js.typeof v) "object" then JSON_stringify v else v.

Definition getPositionalSampleValues (data : value) : list value :=
  match data with
  | VArr xs =>
      if Nat.eqb (List.length xs) 0 then []
      else
        let firstItem := nth 0 xs VUndefined in
        match firstItem with
        | VArr ys => map sample ys
        | _ =>
            if negb (String.eqb (Js.typeof firstItem) "object")
               || Js.is_null firstItem
            then map sample xs
            else []
        end
  | _ => []
  end.
End Samples.

(* ================================================================== *)
(** ** Value resolver *)

(** [path.replace(/^\$\.?/, '')]. *)
Definition strip_root (path : string) : string :=
  match path with
  | String "$" (String "." rest) => rest
  | String "$" rest => rest
  | _ => path
  end.

(** [path.replace(/^\$\.?/, '').split('.').filter(Boolean)]. *)
Definition path_parts (path : string) : list string :=
  filter Str.nonempty (Str.split "." (strip_root path)).

(** [part.match] against the pattern of the source: a possibly empty run of
    word characters (the key), an opening bracket, a star or a non-empty run
    of digits (the index text), a closing bracket, and nothing else. *)
Definition arrayMatch (part : string) : option (string * string) :=
  let (key, rest) := Str.span Str.is_word part in
  match rest with
  | String c tail =>
      if Ascii.eqb c "[" then
        match Str.strip_closing tail with
        | Some indexStr =>
            if String.eqb indexStr "*"
               || (Str.nonempty indexStr && Str.all Str.is_digit indexStr)
            then Some (key, indexStr)
            else None
        | None => None
        end
      else None
  | EmptyString => None
  end.

(** What one turn of the loop leaves: the next [current], or the value of a
    [return] inside the loop. *)
Inductive flow : Type :=
| Next (current : jsval)
| Return (v : jsval).

(** [typeof current === 'object' && current !== null]. *)
Definition is_object (current : jsval) : bool :=
  String.eqb (Js.typeof current) "object" && negb (Js.is_null current).

(** [if (key && typeof current === 'object' && current !== null)
       current = current[key]]. *)
Definition descend_key (current : jsval) (key : string) : result jsval :=
  if Str.nonempty key && is_object current then Js.get_prop current key
  else Ok current.

Definition step (current : jsval) (part : string) : result flow :=
  if Js.nullish current then Ok (Return VNull)
  else
    match arrayMatch part with
    | Some (key, indexStr) =>
        reached <- descend_key current key ;;
        if Js.isArray reached then
          if String.eqb indexStr "*" then Ok (Return reached)
          else
            element <- Js.get_elem reached (Js.parseInt indexStr) ;;
            Ok (Next element)
        else Ok (Next reached)
    | None =>
        if is_object current then
          child <- Js.get_prop current part ;; Ok (Next child)
        else Ok (Next current)
    end.

Fixpoint walk (current : jsval) (parts : list string) : result flow :=
  match parts with
  | [] => Ok (Next current)
  | part :: rest =>
      match step current part with
      | Ok (Next current') => walk current' rest
      | stopped => stopped
      end
  end.

(** After the loop, [return current]. *)
Definition finish (f : flow) : jsval :=
  match f with
  | Next current => current
  | Return v => v
  end.

Definition extractValue (data : value) (path : string) (format : ResponseFormat)
  : result jsval :=
  if negb (Js.truthy data) then Ok VNull
  else
    match format with
    | Positional =>
        let index := Js.parseInt path in
        if Js.isArray data then Js.get_elem data index else Ok VNull
    | Json =>
        try_catch
          (f <- walk data (path_parts path) ;; Ok (finish f))
          (fun _ => Ok VNull)
    end.

(** [d[k1][k2]...[kn]], the plain JavaScript expression. *)
Fixpoint index_chain (d : jsval) (keys : list string) : result jsval :=
  match keys with
  | [] => Ok d
  | key :: rest => child <- Js.get_prop d key ;; index_chain child rest
  end.

(* ================================================================== *)
(** ** Mapping evaluator *)

(** An object the evaluator builds: its own properties in the order
    [Object.keys] lists them, and its prototype, which an assignment to
    [__proto__] can replace. *)
Record ResultObject : Type := mkResultObject {
  entries : list (string * jsval);
  proto : jsval
}.

(** The object literal with the given properties; [{}] is the literal of the
    empty list. *)
Definition object_literal (properties : list (string * jsval)) : ResultObject :=
  mkResultObject properties (Proto ObjectPrototype).

#[warnings="-uniform-inheritance"] Coercion object_literal : list >-> ResultObject.

Record ProcessedRow : Type := mkProcessedRow {
  entityKey : string;
  orgName : jsval;
  mappedFields : ResultObject
}.

Inductive output : Type :=
| OutNull
| OutRecord (fields : ResultObject)
| OutRows (rows : list ProcessedRow).

(** The catalogue the code consults for a category. *)
Definition fields_of (type : string) : list FieldOption :=
  if String.eqb type "attributes" then ATTRIBUTE_FIELDS else DATA_FIELDS.

(** [FIELDS.find(f => f.value === mapping.internalField)?.label]. *)
Definition fieldLabel (mapping : FieldMapping) : option string :=
  option_map label
    (find (fun f => String.eqb (value_of f) (internalField mapping))
       (fields_of (internalType mapping))).

(** A property name that is an array index: such keys are listed first, in
    ascending order, before the other keys in the order of their creation. *)
Definition array_index (key : string) : option Z :=
  match key with
  | EmptyString => None
  | String c rest =>
      if Str.all Str.is_digit key
         && (negb (Ascii.eqb c "0") || negb (Str.nonempty rest))
      then match Str.digits_from 10 None key with
           | Some z => if Z.ltb z (2 ^ 32 - 1) then Some z else None
           | None => None
           end
      else None
  end.

(** A new own property in its place among the keys [Object.keys] lists. *)
Fixpoint place (kvs : list (string * jsval)) (key : string) (v : jsval)
  : list (string * jsval) :=
  match kvs with
  | [] => [(key, v)]
  | (k, old) :: rest =>
      match array_index key, array_index k with
      | Some i, Some j =>
          if Z.ltb i j then (key, v) :: kvs else (k, old) :: place rest key v
      | Some _, None => (key, v) :: kvs
      | None, _ => (k, old) :: place rest key v
      end
  end.

Fixpoint replace (kvs : list (string * jsval)) (key : string) (v : jsval)
  : list (string * jsval) :=
  match kvs with
  | [] => []
  | (k, old) :: rest =>
      if String.eqb k key then (k, v) :: rest else (k, old) :: replace rest key v
  end.

(** What stands on the prototype chain for an assignment to a key that is
    no own property of the object assigned to. *)
Inductive assignment : Type :=
| Creates        (* no property, or a writable data property: a new own
                    property is created *)
| Refused        (* a read-only data property, or an accessor that throws: a
                    TypeError, the module being strict code *)
| SetsPrototype. (* the accessor [__proto__] of [Object.prototype] *)

(** The constants of [Number], read-only like the [prototype] of every
    constructor. *)
Definition number_constants : list string :=
  [ "EPSILON"; "MAX_SAFE_INTEGER"; "MAX_VALUE"; "MIN_SAFE_INTEGER";
    "MIN_VALUE"; "NaN"; "NEGATIVE_INFINITY"; "POSITIVE_INFINITY" ].

(** The chain that starts at the prototype [p].  The own properties of a
    document object or array, the members of the built-in prototypes and the
    static methods of the constructors are writable data properties.
    Read-only are the [length] of [String.prototype], the [length] and [name]
    of every function, the [prototype] of a constructor and the constants of
    [Number]; [arguments] and [caller] are accessors of [Function.prototype]
    that throw.  [__proto__] is an accessor of [Object.prototype], which a
    document object hides with an own [__proto__] key; [null] has no chain. *)
Definition on_chain (p : jsval) (key : string) : assignment :=
  match p with
  | J (VObj kvs) =>
      if String.eqb key "__proto__" && negb (Js.has_own kvs key)
      then SetsPrototype else Creates
  | J (VArr _) | Proto ObjectPrototype | Proto ArrayPrototype
  | Proto NumberPrototype | Proto BooleanPrototype =>
      if String.eqb key "__proto__" then SetsPrototype else Creates
  | Proto StringPrototype =>
      if String.eqb key "length" then Refused
      else if String.eqb key "__proto__" then SetsPrototype
      else Creates
  | Builtin owner name =>
      if existsb (String.eqb key) ["length"; "name"; "arguments"; "caller"]
      then Refused
      else if String.eqb name "constructor"
              && (String.eqb key "prototype"
                  || match owner with
                     | NumberPrototype =>
                         existsb (String.eqb key) number_constants
                     | _ => false
                     end)
      then Refused
      else if String.eqb key "__proto__" then SetsPrototype
      else Creates
  | J _ => Creates
  end.

(** A value that can be a prototype: an object or [null]. *)
Definition object_or_null (v : jsval) : bool :=
  match v with
  | J (VArr _) | J (VObj _) | J VNull | Proto _ | Builtin _ _ => true
  | _ => false
  end.

(** [obj[key] = v].  An own key keeps its place and takes the value.
    Otherwise the prototype chain decides: a new own property is created; or
    the assignment is refused with a TypeError; or, for [__proto__] reaching
    the accessor of [Object.prototype], the prototype of [obj] becomes [v]
    when [v] is an object or [null], nothing happens when it is not, and no
    own property is created. *)
Definition set_prop (obj : ResultObject) (key : string) (v : jsval)
  : result ResultObject :=
  if existsb (fun kv => String.eqb (fst kv) key) (entries obj)
  then Ok (mkResultObject (replace (entries obj) key v) (proto obj))
  else
    match on_chain (proto obj) key with
    | Creates => Ok (mkResultObject (place (entries obj) key v) (proto obj))
    | Refused => Throw TypeError
    | SetsPrototype =>
        Ok (if object_or_null v then mkResultObject (entries obj) v else obj)
    end.

(** The loop over [mappingConfig.mappings], filling [acc]. *)
Fixpoint map_fields (source : value) (format : ResponseFormat)
  (ms : list FieldMapping) (acc : ResultObject) : result ResultObject :=
  match ms with
  | [] => Ok acc
  | mapping :: rest =>
      v <- extractValue source (externalPath mapping) format ;;
      acc' <- set_prop acc
                (or_string (fieldLabel mapping) (internalField mapping)) v ;;
      map_fields source format rest acc'
  end.

Definition envelope_keys : list string :=
  ["data"; "items"; "results"; "records"; "organizations"].

(** The [for ... of] loop with its [break]; [records] starts empty. *)
Fixpoint probe (obj : value) (keys : list string) : result (list value) :=
  match keys with
  | [] => Ok []
  | key :: rest =>
      candidate <- Js.get_prop obj key ;;
      match Js.elements candidate with
      | Some xs => Ok xs
      | None => probe obj rest
      end
  end.

(** The value of the local [records] when the rows are built. *)
Definition records (format : ResponseFormat) (data : value)
  : result (list value) :=
  match format with
  | Positional =>
      match data with
      | VArr xs =>
          first <- Js.get_elem data (Int 0) ;;
          if Js.isArray first then Ok xs else Ok [data]
      | _ => Ok []
      end
  | Json =>
      match data with
      | VArr xs => Ok xs
      | _ =>
          found <- probe data envelope_keys ;;
          if Nat.eqb (List.length found) 0
             && String.eqb (Js.typeof data) "object"
          then Ok [data]
          else Ok found
      end
  end.

(** The value at the key locator of one record. *)
Definition key_value (mappingConfig : MappingConfig) (record : value)
  : result jsval :=
  match responseFormat mappingConfig with
  | Positional => Js.get_elem record (keyIndex mappingConfig)
  | Json => extractValue record (keyPath mappingConfig) Json
  end.

Definition extract_entityKey (mappingConfig : MappingConfig) (record : value)
  : result string :=
  located <- key_value mappingConfig record ;;
  Js.to_String (Js.or located (VStr "unknown")).

Definition process_record (mappingConfig : MappingConfig) (record : value)
  : result ProcessedRow :=
  key <- extract_entityKey mappingConfig record ;;
  fields <- map_fields record (responseFormat mappingConfig)
              (mappings mappingConfig) [] ;;
  Ok (mkProcessedRow key (getOrgNameFromKey key) fields).

(** [data] is the value of [resultsData || getParsedData()]. *)
Definition processResultsData (data : value) (mappingConfig : MappingConfig)
  : result output :=
  if negb (Js.truthy data) then Ok OutNull
  else
    let format := responseFormat mappingConfig in
    match target mappingConfig with
    | Portfolio =>
        fields <- map_fields data format (mappings mappingConfig) [] ;;
        Ok (OutRecord fields)
    | Organizations =>
        rs <- records format data ;;
        rows <- mapM (process_record mappingConfig) rs ;;
        Ok (OutRows rows)
    end.

(* ================================================================== *)
(** ** Mapping editors *)

(** [keyof FieldMapping]. *)
Inductive FieldKey : Type :=
| K_id
| K_externalPath
| K_internalType
| K_internalField.

(** [FIELDS[0].value]; both catalogues are non-empty constants. *)
Definition first_value (options : list FieldOption) : string :=
  match options with
  | o :: _ => value_of o
  | [] => ""
  end.

(** [{ ...m, [field]: value }]. *)
Definition with_field (m : FieldMapping) (field : FieldKey) (v : string)
  : FieldMapping :=
  match field with
  | K_id => mkFieldMapping v (externalPath m) (internalType m) (internalField m)
  | K_externalPath => mkFieldMapping (id m) v (internalType m) (internalField m)
  | K_internalType => mkFieldMapping (id m) (externalPath m) v (internalField m)
  | K_internalField => mkFieldMapping (id m) (externalPath m) (internalType m) v
  end.

Definition with_mappings (prev : MappingConfig) (ms : list FieldMapping)
  : MappingConfig :=
  mkMappingConfig (target prev) (responseFormat prev) (keyPath prev)
    (keyIndex prev) ms.

(** [uuid] is what [crypto.randomUUID()] returned. *)
Definition addMapping (uuid : string) (prev : MappingConfig) : MappingConfig :=
  let newMapping :=
    mkFieldMapping uuid "" "attributes" (first_value ATTRIBUTE_FIELDS) in
  with_mappings prev (mappings prev ++ [newMapping])%list.

Definition updateMapping (id' : string) (field : FieldKey) (v : string)
  (prev : MappingConfig) : MappingConfig :=
  with_mappings prev
    (map (fun m =>
            if negb (String.eqb (id m) id') then m
            else
              match field with
              | K_internalType =>
                  let newType := v in
                  mkFieldMapping (id m) (externalPath m) newType
                    (if String.eqb newType "attributes"
                     then first_value ATTRIBUTE_FIELDS
                     else first_value DATA_FIELDS)
              | _ => with_field m field v
              end)
       (mappings prev)).

(** The state the wizard starts from. *)
Definition initial_mappingConfig : MappingConfig :=
  mkMappingConfig Organizations Positional "" (Int 1)
    [ mkFieldMapping "1" "3" "attributes" "region";
      mkFieldMapping "2" "19" "data" "occupancy" ].

(** A mapping's field belongs to the catalogue of its category. *)
Definition field_in_category (m : FieldMapping) : Prop :=
  In (internalField m) (map value_of (fields_of (internalType m))).

Definition config_ok (cfg : MappingConfig) : Prop :=
  Forall field_in_category (mappings cfg).

(* ================================================================== *)
(** ** Selector, removal and navigation *)

(** [Array.from({ length }, (_, i) => i)] for the positional length of
    [data], the value of [getParsedData()]. *)
Definition getAvailableIndices (data : value) : list number :=
  map (fun i => Int (Z.of_nat i)) (seq 0 (getPositionalArrayLength data)).

Definition removeMapping (id' : string) (prev : MappingConfig) : MappingConfig :=
  with_mappings prev
    (filter (fun m => negb (String.eqb (id m) id')) (mappings prev)).

(** The step after [handleNext]; at step 3 it calls [handleTestAndSave], whose
    one write to the step is [setCurrentStep(4)]. *)
Definition handleNext (currentStep : Z) : Z :=
  if (currentStep <? 3)%Z then (currentStep + 1)%Z
  else if (currentStep =? 3)%Z then 4%Z
  else currentStep.

Definition handlePrevious (currentStep : Z) : Z :=
  if (1 <? currentStep)%Z then (currentStep - 1)%Z else currentStep.

(* ================================================================== *)
(** ** Vocabulary of the statements *)

(** Booleans, numbers and strings. *)
Definition is_scalar (v : value) : bool :=
  match v with
  | VBool _ | VNum _ | VStr _ => true
  | _ => false
  end.

(** The entity key the code derives from the value at the key locator. *)
Definition key_text (located : jsval) : result string :=
  Js.to_String (Js.or located (VStr "unknown")).

(** A key without brackets. *)
Definition bracket_free (key : string) : bool :=
  negb (Str.mem "[" key) && negb (Str.mem "]" key).

(** A key that one dot segment of an address can spell: not empty, no dot,
    no bracket. *)
Definition plain_key (key : string) : bool :=
  Str.nonempty key && negb (Str.mem "." key) && bracket_free key.

(** The segments [.k1.k2...kn] as one string. *)
Fixpoint dotted (keys : list string) : string :=
  match keys with
  | [] => ""
  | key :: rest => "." ++ key ++ dotted rest
  end.

(** The value of a decimal numeral read from the left, [acc] being the value
    of the digits already read. *)
Fixpoint uint_value (acc : Z) (u : Decimal.uint) : Z :=
  match u with
  | Decimal.Nil => acc
  | Decimal.D0 d => uint_value (acc * 10 + 0) d
  | Decimal.D1 d => uint_value (acc * 10 + 1) d
  | Decimal.D2 d => uint_value (acc * 10 + 2) d
  | Decimal.D3 d => uint_value (acc * 10 + 3) d
  | Decimal.D4 d => uint_value (acc * 10 + 4) d
  | Decimal.D5 d => uint_value (acc * 10 + 5) d
  | Decimal.D6 d => uint_value (acc * 10 + 6) d
  | Decimal.D7 d => uint_value (acc * 10 + 7) d
  | Decimal.D8 d => uint_value (acc * 10 + 8) d
  | Decimal.D9 d => uint_value (acc * 10 + 9) d
  end%Z.

(** The key under which a mapping writes its value. *)
Definition out_key (mapping : FieldMapping) : string :=
  or_string (fieldLabel mapping) (internalField mapping).

(** No mapping writes under the key [__proto__]. *)
Definition no_prototype_key (ms : list FieldMapping) : bool :=
  forallb (fun m => negb (String.eqb (out_key m) "__proto__")) ms.

(** The own properties after an assignment that updates or creates one. *)
Definition put (kvs : list (string * jsval)) (key : string) (v : jsval)
  : list (string * jsval) :=
  if existsb (fun kv => String.eqb (fst kv) key) kvs then replace kvs key v
  else place kvs key v.

(** The value a mapping resolves to against [source]. *)
Definition mapped_value (source : value) (format : ResponseFormat)
  (mapping : FieldMapping) : jsval :=
  match extractValue source (externalPath mapping) format with
  | Ok v => v
  | Throw _ => J VUndefined
  end.

(** The own property [key] of a result object, [undefined] without one. *)
Fixpoint field (fields : list (string * jsval)) (key : string) : jsval :=
  match fields with
  | [] => J VUndefined
  | (k, v) :: rest => if String.eqb k key then v else field rest key
  end.

(** A document value on which [String()] raises: a keyed-mapping with an own
    [toString] key, or a sequence with such an element. *)
Fixpoint unprintable (v : value) : bool :=
  match v with
  | VObj kvs => Js.has_own kvs "toString"
  | VArr xs => existsb unprintable xs
  | _ => false
  end.



(** An address that starts with the root sentinel. *)
Definition starts_with_root (path : string) : bool :=
  match path with
  | String c _ => Ascii.eqb c "$"
  | EmptyString => false
  end.

(** What follows the first wildcard of a path: nothing, or a keyed descent. *)
Definition key_or_end (rest : list segment) : bool :=
  match rest with
  | Star :: _ => false
  | _ => true
  end.

(* ================================================================== *)
(** * Properties *)

(** ** Shared lemmas *)

Lemma get_prop_total (v : jsval) (key : string) :
  Js.nullish v = false -> Js.get_prop v key = Ok (Js.read v key).
Proof. intros Hv. unfold Js.get_prop. now rewrite Hv. Qed.

Lemma get_elem_total (v : jsval) (n : number) :
  Js.nullish v = false -> exists r, Js.get_elem v n = Ok r.
Proof.
  intros Hv. unfold Js.get_elem.
  destruct v as [ [ | | b | m | s | xs | kvs ] | p | p name ];
    try discriminate Hv; destruct n as [ | neg | z | text ]; cbv beta iota;
    try (rewrite get_prop_total by reflexivity; eauto);
    match goal with
    | |- context [Z.leb 0 ?z] => destruct (Z.leb 0 z); eauto
    end.
Qed.

Lemma isArray_not_nullish (v : jsval) :
  Js.isArray v = true -> Js.nullish v = false.
Proof.
  destruct v as [ [ | | b | m | s | xs | kvs ] | p | p name ];
    intros H; first [ reflexivity | discriminate H ].
Qed.

Lemma get_elem_array_ok (xs : list value) (n : number) :
  exists v, Js.get_elem (VArr xs) n = Ok v.
Proof. apply get_elem_total. reflexivity. Qed.

Lemma extractValue_ok (data : value) (path : string) (format : ResponseFormat) :
  exists v, extractValue data path format = Ok v.
Proof.
  unfold extractValue.
  destruct (Js.truthy data); cbn [negb]; [ | eauto ].
  destruct format.
  - destruct (walk data (path_parts path)) as [ f | e ]; simpl; eauto.
  - destruct (Js.isArray data) eqn:Harray; [ | eauto ].
    apply get_elem_total. now apply isArray_not_nullish.
Qed.

Lemma extractValue_falsy (data : value) (path : string) (format : ResponseFormat) :
  Js.truthy data = false -> extractValue data path format = Ok VNull.
Proof.
  intros Hfalsy. unfold extractValue. now rewrite Hfalsy.
Qed.

(** ** The resolver never raises *)

(** C1: for every document, every address and both formats [extractValue]
    returns a value and raises nothing; the address ["$.a..b"] has the parts
    [a] and [b], its empty segment dropped, and so resolves like ["$.a.b"]. *)
Theorem extractValue_never_raises :
  (forall data path format, exists v, extractValue data path format = Ok v)
  /\ path_parts "$.a..b" = ["a"; "b"]
  /\ (forall data,
        extractValue data "$.a..b" Json = extractValue data "$.a.b" Json).
Proof.
  split; [ exact extractValue_ok | ].
  split; reflexivity.
Qed.

(** ** Falsy documents *)

(** C9: a falsy document (in particular [0], the empty string, [false] and
    [NaN]) resolves to [null] at every address in both formats, the address
    ["$"] included, while a truthy document resolves to itself at ["$"]. *)
Theorem falsy_document_resolves_to_null (data : value) :
  (Js.truthy data = false ->
   forall path format, extractValue data path format = Ok VNull)
  /\ (Js.truthy data = true -> extractValue data "$" Json = Ok data).
Proof.
  split.
  - intros Hfalsy path format. now apply extractValue_falsy.
  - intros Htruthy. unfold extractValue. rewrite Htruthy. reflexivity.
Qed.

Lemma falsy_document_resolves_to_null_witness :
  (forall path format, extractValue (VNum (Int 0)) path format = Ok VNull)
  /\ (forall path format, extractValue (VStr "") path format = Ok VNull)
  /\ (forall path format, extractValue (VBool false) path format = Ok VNull)
  /\ (forall path format, extractValue (VNum NaN) path format = Ok VNull)
  /\ extractValue (VNum (Int 0)) "$" Json = Ok VNull
  /\ extractValue (VNum (Int 7)) "$" Json = Ok (VNum (Int 7)).
Proof.
  refine (conj _ (conj _ (conj _ (conj _ (conj _ _))))).
  - exact (proj1 (falsy_document_resolves_to_null (VNum (Int 0))) eq_refl).
  - exact (proj1 (falsy_document_resolves_to_null (VStr "")) eq_refl).
  - exact (proj1 (falsy_document_resolves_to_null (VBool false)) eq_refl).
  - exact (proj1 (falsy_document_resolves_to_null (VNum NaN)) eq_refl).
  - exact (proj1 (falsy_document_resolves_to_null (VNum (Int 0))) eq_refl "$" Json).
  - exact (proj2 (falsy_document_resolves_to_null (VNum (Int 7))) eq_refl).
Defined.

(** ** Positional statistics *)

(** C7: for every document the number of positional samples is the
    positional length, whatever [JSON.stringify] prints. *)
Theorem positional_samples_length (stringify : value -> value) (d : value) :
  List.length (getPositionalSampleValues stringify d)
  = getPositionalArrayLength d.
Proof.
  destruct d as [ | | b | n | s | xs | kvs ];
    try reflexivity;
    try (unfold getPositionalArrayLength; simpl;
         match goal with |- _ = (if ?c then _ else _) => destruct c end;
         reflexivity).
  unfold getPositionalArrayLength, getPositionalSampleValues. simpl.
  destruct xs as [ | firstItem rest ]; [ reflexivity | ].
  cbn [List.length Nat.eqb nth].
  destruct firstItem; cbn -[List.length map];
    rewrite ?length_map; reflexivity.
Qed.

(** ** Record collection *)

Lemma probe_skips (kvs : list (string * value)) (keys : list string) :
  (forall key, In key keys -> Js.isArray (Js.read (VObj kvs) key) = false) ->
  probe (VObj kvs) keys = Ok [].
Proof.
  induction keys as [ | key rest IH ]; intros Hnone; [ reflexivity | ].
  cbn [probe]. rewrite get_prop_total by reflexivity. cbn [bind].
  pose proof (Hnone key (or_introl eq_refl)) as Hkey.
  destruct (Js.read (VObj kvs) key) as [ [ | | b | m | s | xs | kvs' ] | [] | p name ];
    try discriminate Hkey;
    apply IH; intros k Hk; apply Hnone; now right.
Qed.

Lemma probe_finds (kvs : list (string * value)) (before after : list string)
  (key : string) (xs : list value) :
  (forall k, In k before -> Js.isArray (Js.read (VObj kvs) k) = false) ->
  Js.read (VObj kvs) key = VArr xs ->
  probe (VObj kvs) (before ++ key :: after) = Ok xs.
Proof.
  induction before as [ | k rest IH ]; intros Hnone Hkey; cbn [app probe];
    rewrite get_prop_total by reflexivity; cbn [bind].
  - now rewrite Hkey.
  - pose proof (Hnone k (or_introl eq_refl)) as Hk.
    destruct (Js.read (VObj kvs) k) as [ [ | | b | m | s | ys | kvs' ] | [] | p name ];
      try discriminate Hk;
      apply IH; auto; intros k' Hk'; apply Hnone; now right.
Qed.

(** The envelope probe on its intended inputs: the first envelope key, in
    the fixed order, that holds a non-empty sequence gives the records. *)
Lemma records_json_envelope (kvs : list (string * value))
  (before after : list string) (key : string) (x : value) (xs : list value) :
  envelope_keys = (before ++ key :: after)%list ->
  (forall k, In k before -> Js.isArray (Js.read (VObj kvs) k) = false) ->
  Js.read (VObj kvs) key = VArr (x :: xs) ->
  records Json (VObj kvs) = Ok (x :: xs).
Proof.
  intros Hkeys Hnone Hkey. unfold records. rewrite Hkeys.
  now rewrite (probe_finds kvs before after key (x :: xs) Hnone Hkey).
Qed.

(** With no envelope key holding a sequence, the object is the one record. *)
Lemma records_json_no_envelope (kvs : list (string * value)) :
  (forall k, In k envelope_keys -> Js.isArray (Js.read (VObj kvs) k) = false) ->
  records Json (VObj kvs) = Ok [VObj kvs].
Proof.
  intros Hnone. unfold records. now rewrite (probe_skips kvs envelope_keys Hnone).
Qed.

(** C3, at the input where the code departs from it: in the document
    [{ "data": [] }] the envelope key [data] is present and holds a sequence,
    yet the record collection is not that (empty) sequence but the whole
    document as one record, which becomes a row with the key ["unknown"];
    the same happens when a later envelope key holds the records. *)
Theorem empty_envelope_wrapped_as_record :
  let doc := VObj [("data", VArr [])] in
  let doc2 :=
    VObj [("data", VArr []); ("items", VArr [VObj [("id", VStr "RENEW")]])] in
  Js.get_prop doc "data" = Ok (VArr [])
  /\ records Json doc = Ok [doc]
  /\ processResultsData doc (mkMappingConfig Organizations Json "$.id" (Int 0) [])
     = Ok (OutRows [mkProcessedRow "unknown" (VStr "Property unknown") []])
  /\ records Json doc2 = Ok [doc2].
Proof.
  cbv zeta. refine (conj _ (conj _ (conj _ _))); reflexivity.
Qed.

(** C10 as stated fails: the document [0] is no sequence, and under the
    positional format the evaluator returns [null] for it, not an empty
    sequence of rows. *)
Lemma positional_falsy_document_yields_null :
  ~ (forall (d : value) cfg,
        Js.isArray d = false ->
        target cfg = Organizations ->
        responseFormat cfg = Positional ->
        processResultsData d cfg = Ok (OutRows [])).
Proof.
  intros Hclaim.
  specialize (Hclaim (VNum (Int 0)) initial_mappingConfig eq_refl eq_refl eq_refl).
  discriminate Hclaim.
Qed.

(** C10, amended: under the positional format every truthy document that is
    not a sequence has an empty record collection and evaluates to an empty
    sequence of rows; wrapping a keyed-mapping as the single record is what
    the keyed format does when the probe finds nothing.  A falsy document
    evaluates to [null] whatever the configuration. *)
Theorem positional_non_sequence_has_no_rows (d : value) (cfg : MappingConfig) :
  (Js.truthy d = true ->
   Js.isArray d = false ->
   target cfg = Organizations ->
   responseFormat cfg = Positional ->
   records Positional d = Ok []
   /\ processResultsData d cfg = Ok (OutRows [])
   /\ (forall kvs, d = VObj kvs -> probe d envelope_keys = Ok [] ->
       records Json d = Ok [d]))
  /\ (Js.truthy d = false -> processResultsData d cfg = Ok OutNull).
Proof.
  split.
  - intros Htruthy Hseq Htarget Hformat.
    assert (Hrecords : records Positional d = Ok []).
    { destruct d; try reflexivity; discriminate Hseq. }
    refine (conj Hrecords (conj _ _)).
    + unfold processResultsData.
      rewrite Htruthy, Htarget, Hformat, Hrecords. reflexivity.
    + intros kvs -> Hprobe. unfold records. rewrite Hprobe. reflexivity.
  - intros Hfalsy. unfold processResultsData. now rewrite Hfalsy.
Qed.

Lemma positional_non_sequence_has_no_rows_witness :
  let d := VObj [("id", VStr "RENEW")] in
  (records Positional d = Ok []
   /\ processResultsData d initial_mappingConfig = Ok (OutRows [])
   /\ (forall kvs, d = VObj kvs -> probe d envelope_keys = Ok [] ->
       records Json d = Ok [d]))
  /\ processResultsData (VStr "") initial_mappingConfig = Ok OutNull
  /\ processResultsData (VNum (Int 0))
       (mkMappingConfig Portfolio Json "" (Int 0) []) = Ok OutNull.
Proof.
  cbv zeta. refine (conj _ (conj _ _)).
  - exact (proj1 (positional_non_sequence_has_no_rows
                    (VObj [("id", VStr "RENEW")]) initial_mappingConfig)
             eq_refl eq_refl eq_refl eq_refl).
  - exact (proj2 (positional_non_sequence_has_no_rows
                    (VStr "") initial_mappingConfig) eq_refl).
  - exact (proj2 (positional_non_sequence_has_no_rows
                    (VNum (Int 0)) (mkMappingConfig Portfolio Json "" (Int 0) []))
             eq_refl).
Defined.

(** ** Mapping editors *)

(** C8 as stated fails: [updateMapping] stores whatever field it is given,
    so setting the field of the attribute mapping ["1"] to ["occupancy"]
    leaves a field outside the catalogue of its category. *)
Lemma updateMapping_stores_foreign_field :
  ~ (forall cfg id' field v,
        config_ok cfg -> config_ok (updateMapping id' field v cfg)).
Proof.
  intros Hclaim.
  assert (Hinit : config_ok initial_mappingConfig).
  { repeat constructor; simpl; tauto. }
  specialize (Hclaim initial_mappingConfig "1" K_internalField "occupancy" Hinit).
  inversion Hclaim as [ | m ms Hfirst Hrest ]; subst.
  unfold field_in_category in Hfirst. simpl in Hfirst.
  repeat (destruct Hfirst as [ Hfirst | Hfirst ]; [ discriminate Hfirst | ]).
  exact Hfirst.
Qed.

(** C8, amended: [addMapping] keeps every mapping's field inside the
    catalogue of its category, and so does [updateMapping] whenever a call
    that sets [internalField] passes a member of the category of the mapping
    it edits, as the field selector of the wizard does; a call that sets the
    category resets the field to the first member of the new category. *)
Theorem mapping_edits_keep_field_in_category (cfg : MappingConfig) :
  config_ok cfg ->
  (forall uuid, config_ok (addMapping uuid cfg))
  /\ (forall id' field v,
        (field = K_internalField ->
         forall m, In m (mappings cfg) -> id m = id' ->
                   In v (map value_of (fields_of (internalType m)))) ->
        config_ok (updateMapping id' field v cfg))
  /\ (forall id' v m,
        In m (mappings (updateMapping id' K_internalType v cfg)) ->
        id m = id' ->
        internalType m = v /\ internalField m = first_value (fields_of v)).
Proof.
  intros Hok. unfold config_ok in *.
  refine (conj _ (conj _ _)).
  - intros uuid. simpl. apply Forall_app. split; [ exact Hok | ].
    constructor; [ | constructor ].
    unfold field_in_category. simpl. auto.
  - intros id' field v Hmember. simpl.
    apply Forall_forall. intros m' Hin.
    apply in_map_iff in Hin. destruct Hin as [ m [ Hm Hin ] ].
    rewrite Forall_forall in Hok. specialize (Hok m Hin).
    destruct (String.eqb (id m) id') eqn:Hid; simpl in Hm; [ | now subst m' ].
    apply String.eqb_eq in Hid.
    destruct field; simpl in Hm; subst m'; unfold field_in_category; simpl;
      try exact Hok.
    + unfold fields_of. destruct (String.eqb v "attributes"); simpl; auto.
    + now apply Hmember.
  - intros id' v m' Hin Hid'. simpl in Hin.
    apply in_map_iff in Hin. destruct Hin as [ m [ Hm Hin ] ].
    destruct (String.eqb (id m) id') eqn:Hid; simpl in Hm.
    + subst m'. simpl. split; [ reflexivity | ].
      unfold fields_of. now destruct (String.eqb v "attributes").
    + subst m'. rewrite Hid' in Hid. now rewrite String.eqb_refl in Hid.
Qed.

Lemma mapping_edits_keep_field_in_category_witness :
  config_ok (addMapping "fresh" initial_mappingConfig)
  /\ config_ok (updateMapping "1" K_internalType "data" initial_mappingConfig)
  /\ config_ok (updateMapping "1" K_internalField "brand" initial_mappingConfig).
Proof.
  assert (Hinit : config_ok initial_mappingConfig).
  { unfold config_ok, field_in_category. simpl.
    constructor; [ simpl; auto | constructor; [ simpl; auto | constructor ] ]. }
  pose proof (mapping_edits_keep_field_in_category initial_mappingConfig Hinit)
    as [ Hadd [ Hupdate _ ] ].
  refine (conj (Hadd "fresh") (conj _ _)).
  - apply Hupdate. intros Hfield. discriminate Hfield.
  - apply Hupdate. intros _ m Hin Hid.
    simpl in Hin. destruct Hin as [ <- | [ <- | [] ] ]; simpl in *.
    + auto.
    + discriminate Hid.
Defined.

(** ** Plain segments *)

(** C5 as stated fails: a sequence is not a keyed-mapping, yet a plain
    segment does not carry it through; [typeof] calls it an object, so the
    segment is read as a property of the array and [undefined] comes out. *)
Lemma plain_segment_indexes_sequence :
  ~ (forall (current : value) part,
        arrayMatch part = None ->
        Js.nullish current = false ->
        (forall kvs, current <> VObj kvs) ->
        step current part = Ok (Next current)).
Proof.
  intros Hclaim.
  specialize (Hclaim (VArr [VNum (Int 1); VNum (Int 2); VNum (Int 3)]) "b"
                eq_refl eq_refl).
  assert (Hnot : forall kvs,
             VArr [VNum (Int 1); VNum (Int 2); VNum (Int 3)] <> VObj kvs)
    by (intros kvs Heq; discriminate Heq).
  specialize (Hclaim Hnot). discriminate Hclaim.
Qed.

(** C5, amended: a plain segment descends by key when the current value is a
    keyed-mapping, and also when it is a sequence, where the segment is read
    as a property of the array; for every scalar current value (boolean,
    number, string) the walk stalls and the current value is carried through
    unchanged.  A key the keyed-mapping holds gives the value it holds. *)
Theorem plain_segment_step (current : value) (part : string) :
  arrayMatch part = None ->
  (is_scalar current = true -> step current part = Ok (Next current))
  /\ (forall kvs, current = VObj kvs ->
        step current part = Ok (Next (Js.read current part))
        /\ (Js.has_own kvs part = true ->
            step current part = Ok (Next (Js.own kvs part))))
  /\ (forall xs, current = VArr xs ->
        step current part = Ok (Next (Js.read current part))).
Proof.
  intros Hplain. unfold step. rewrite Hplain.
  refine (conj _ (conj _ _)).
  - intros Hscalar. destruct current; try discriminate Hscalar; reflexivity.
  - intros kvs ->. split; [ reflexivity | ].
    intros Hown. cbn. unfold Js.read, Js.own_prop. now rewrite Hown.
  - intros xs ->. reflexivity.
Qed.

Lemma plain_segment_step_witness :
  step (VNum (Int 5)) "b" = Ok (Next (VNum (Int 5)))
  /\ step (VObj [("b", VStr "x")]) "b" = Ok (Next (VStr "x"))
  /\ step (VArr [VNum (Int 1); VNum (Int 2)]) "b" = Ok (Next VUndefined)
  /\ step (VArr [VNum (Int 1); VNum (Int 2)]) "length" = Ok (Next (VNum (Int 2)))
  /\ step (VArr [VNum (Int 1); VNum (Int 2)]) "1" = Ok (Next (VNum (Int 2))).
Proof.
  refine (conj _ (conj _ (conj _ (conj _ _)))).
  - exact (proj1 (plain_segment_step (VNum (Int 5)) "b" eq_refl) eq_refl).
  - exact (proj2 (proj1 (proj2 (plain_segment_step (VObj [("b", VStr "x")]) "b"
                                  eq_refl))
                    [("b", VStr "x")] eq_refl) eq_refl).
  - exact (proj2 (proj2 (plain_segment_step
                           (VArr [VNum (Int 1); VNum (Int 2)]) "b" eq_refl))
             [VNum (Int 1); VNum (Int 2)] eq_refl).
  - exact (proj2 (proj2 (plain_segment_step
                           (VArr [VNum (Int 1); VNum (Int 2)]) "length" eq_refl))
             [VNum (Int 1); VNum (Int 2)] eq_refl).
  - exact (proj2 (proj2 (plain_segment_step
                           (VArr [VNum (Int 1); VNum (Int 2)]) "1" eq_refl))
             [VNum (Int 1); VNum (Int 2)] eq_refl).
Defined.

(** The same two behaviours through the whole resolver. *)
Example scalar_stalls_sequence_does_not :
  extractValue (VObj [("a", VNum (Int 5))]) "$.a.b" Json = Ok (VNum (Int 5))
  /\ extractValue (VObj [("a", VArr [VNum (Int 1); VNum (Int 2)])]) "$.a.b" Json
     = Ok VUndefined.
Proof. split; reflexivity. Qed.

(** ** Wildcard segments *)

Lemma walk_app (current : jsval) (pre post : list string) :
  walk current (pre ++ post)
  = match walk current pre with
    | Ok (Next reached) => walk reached post
    | stopped => stopped
    end.
Proof.
  revert current. induction pre as [ | part pre IH ]; intros current;
    cbn [app walk].
  - reflexivity.
  - destruct (step current part) as [ [ next | v ] | e ];
      [ apply IH | reflexivity | reflexivity ].
Qed.

Lemma span_word_bracket (key rest : string) :
  Str.all Str.is_word key = true ->
  Str.span Str.is_word (key ++ String "[" rest) = (key, String "[" rest).
Proof.
  induction key as [ | c key IH ]; intros Hword; simpl in *.
  - reflexivity.
  - apply andb_prop in Hword. destruct Hword as [ Hc Hkey ].
    rewrite Hc, (IH Hkey). reflexivity.
Qed.

Lemma arrayMatch_wildcard (key : string) :
  Str.all Str.is_word key = true ->
  arrayMatch (key ++ "[*]") = Some (key, "*").
Proof.
  intros Hword. unfold arrayMatch.
  rewrite (span_word_bracket key "*]" Hword). reflexivity.
Qed.

(** C6 as stated fails: in the address ["$.my-key[*]"] the segment is the key
    [my-key] followed by the wildcard, and that key holds a sequence, yet the
    resolver does not return it: the key is not made of word characters, so
    the segment does not match the bracket pattern and is read whole, as the
    property name [my-key[*]]. *)
Lemma wildcard_needs_word_key :
  ~ (forall (data : value) path pre post key (current : jsval) xs,
        Js.truthy data = true ->
        path_parts path = (pre ++ (key ++ "[*]")%string :: post)%list ->
        walk data pre = Ok (Next current) ->
        descend_key current key = Ok (VArr xs) ->
        extractValue data path Json = Ok (VArr xs)).
Proof.
  intros Hclaim.
  specialize (Hclaim (VObj [("my-key", VArr [VNum (Int 1); VNum (Int 2)])])
                "$.my-key[*]" [] [] "my-key"
                (J (VObj [("my-key", VArr [VNum (Int 1); VNum (Int 2)])]))
                [VNum (Int 1); VNum (Int 2)]
                eq_refl eq_refl eq_refl eq_refl).
  vm_compute in Hclaim. discriminate Hclaim.
Qed.

(** C6, amended: when the parts of an address reach, without an earlier
    return, a segment made of a key of word characters (letters, digits and
    underscores; possibly empty) and [[*]], and the value reached after the
    descent into that key is a sequence, the resolver returns that sequence
    itself, whatever segments follow. *)
Theorem wildcard_returns_sequence (data : value) (path : string)
  (pre post : list string) (key : string) (current : jsval) (xs : list value) :
  Js.truthy data = true ->
  path_parts path = (pre ++ (key ++ "[*]")%string :: post)%list ->
  Str.all Str.is_word key = true ->
  walk data pre = Ok (Next current) ->
  descend_key current key = Ok (VArr xs) ->
  extractValue data path Json = Ok (VArr xs).
Proof.
  intros Htruthy Hparts Hword Hpre Hreached.
  assert (Hcurrent : Js.nullish current = false).
  { destruct current as [ [ | | b | n | s | ys | kvs ] | p | p name ];
      try reflexivity; unfold descend_key in Hreached;
      simpl in Hreached; rewrite andb_false_r in Hreached;
      discriminate Hreached. }
  unfold extractValue. rewrite Htruthy, Hparts, walk_app, Hpre. simpl.
  unfold step. rewrite Hcurrent, (arrayMatch_wildcard key Hword), Hreached.
  reflexivity.
Qed.

Lemma wildcard_returns_sequence_witness :
  extractValue
    (VObj [("a", VObj [("b", VArr [VNum (Int 1); VNum (Int 2); VNum (Int 3)])])])
    "$.a.b[*]" Json
  = Ok (VArr [VNum (Int 1); VNum (Int 2); VNum (Int 3)]).
Proof.
  exact (wildcard_returns_sequence
           (VObj [("a", VObj [("b", VArr [VNum (Int 1); VNum (Int 2);
                                           VNum (Int 3)])])])
           "$.a.b[*]" ["a"] [] "b"
           (VObj [("b", VArr [VNum (Int 1); VNum (Int 2); VNum (Int 3)])])
           [VNum (Int 1); VNum (Int 2); VNum (Int 3)]
           eq_refl eq_refl eq_refl eq_refl eq_refl).
Defined.

(** Segments after the wildcard are not looked at. *)
Example wildcard_ignores_rest :
  extractValue
    (VObj [("data", VArr [VObj [("id", VStr "RENEW")]])]) "$.data[*].id" Json
  = Ok (VArr [VObj [("id", VStr "RENEW")]]).
Proof. reflexivity. Qed.

(** ** Entity keys *)


Lemma get_elem_array_nth (xs : list value) (i : nat) :
  Js.get_elem (VArr xs) (Int (Z.of_nat i)) = Ok (nth i xs VUndefined).
Proof.
  simpl. destruct (Z.leb_spec 0 (Z.of_nat i)) as [ _ | Hneg ]; [ | lia ].
  now rewrite Nat2Z.id.
Qed.

(** On an object whose prototype is [Object.prototype], an assignment to a
    key other than [__proto__] updates or creates the own property. *)
Lemma set_prop_plain (obj : ResultObject) (key : string) (v : jsval) :
  proto obj = Proto ObjectPrototype ->
  key <> "__proto__" ->
  set_prop obj key v
  = Ok (mkResultObject (put (entries obj) key v) (Proto ObjectPrototype)).
Proof.
  intros Hproto Hkey. unfold set_prop, put. rewrite Hproto.
  apply String.eqb_neq in Hkey.
  destruct (existsb (fun kv => String.eqb (fst kv) key) (entries obj));
    [ reflexivity | ].
  cbn [on_chain]. now rewrite Hkey.
Qed.

Lemma no_prototype_key_cons (m : FieldMapping) (ms : list FieldMapping) :
  no_prototype_key (m :: ms) = true ->
  out_key m <> "__proto__" /\ no_prototype_key ms = true.
Proof.
  unfold no_prototype_key. cbn [forallb]. intros Hkeys.
  apply andb_prop in Hkeys. destruct Hkeys as [ Hm Hms ].
  apply negb_true_iff, String.eqb_neq in Hm. now split.
Qed.

Lemma map_fields_ok (source : value) (format : ResponseFormat)
  (ms : list FieldMapping) :
  forall acc,
    proto acc = Proto ObjectPrototype ->
    no_prototype_key ms = true ->
    exists fields, map_fields source format ms acc = Ok fields.
Proof.
  induction ms as [ | mapping rest IH ]; intros acc Hproto Hkeys;
    cbn [map_fields].
  - eauto.
  - destruct (no_prototype_key_cons _ _ Hkeys) as [ Hkey Hrest ].
    destruct (extractValue_ok source (externalPath mapping) format) as [ v Hv ].
    rewrite Hv. cbn [bind]. fold (out_key mapping).
    rewrite (set_prop_plain acc _ v Hproto Hkey). cbn [bind].
    now apply IH.
Qed.


(** [String()] on a document value raises exactly on the values marked
    [unprintable]. *)
Lemma String_of_spec (d : value) :
  if unprintable d then Js.String_of d = Throw TypeError
  else exists text, Js.String_of d = Ok text.
Proof.
  induction d as [ | | b | n | s | xs IHxs | kvs IHkvs ] using value_ind;
    try (simpl; eauto; fail).
  - destruct b; simpl; eauto.
  - cbn [unprintable Js.String_of].
    match goal with
    | |- context [bind (?each xs) _] =>
        assert (Heach : if existsb unprintable xs
                        then each xs = Throw TypeError
                        else exists pieces, each xs = Ok pieces)
    end.
    { induction xs as [ | x rest IHrest ]; [ simpl; eauto | ].
      inversion IHxs as [ | ? ? Hx Hothers ]; subst.
      specialize (IHrest Hothers). cbn [existsb].
      match goal with
      | |- context [bind ?piece _] =>
          assert (Hpiece : if unprintable x then piece = Throw TypeError
                           else exists text, piece = Ok text)
            by (destruct x; try exact Hx; simpl; eauto)
      end.
      destruct (unprintable x).
      - rewrite Hpiece. reflexivity.
      - destruct Hpiece as [ text Htext ]. rewrite Htext. cbn [orb bind].
        destruct (existsb unprintable rest).
        + rewrite IHrest. reflexivity.
        + destruct IHrest as [ pieces Hpieces ]. rewrite Hpieces.
          simpl. eauto. }
    destruct (existsb unprintable xs).
    + rewrite Heach. reflexivity.
    + destruct Heach as [ pieces Hpieces ]. rewrite Hpieces. simpl. eauto.
  - simpl. destruct (Js.has_own kvs "toString"); eauto.
Qed.







(** The rows of the spec's positional example. *)
Example positional_example_rows :
  processResultsData
    (VArr [ VArr [VNum (Int 1); VStr "RENEW"; VStr "Hotel"; VNum (Int 72)];
            VArr [VNum (Int 2); VStr "HNLMC"; VStr "Resort"; VNum (Int 85)] ])
    (mkMappingConfig Organizations Positional "" (Int 1)
       [mkFieldMapping "1" "3" "attributes" "region"])
  = Ok (OutRows
          [ mkProcessedRow "RENEW" (VStr "Hotel Renew")
              [("Region", J (VNum (Int 72)))];
            mkProcessedRow "HNLMC" (VStr "Waikiki Beach Marriott")
              [("Region", J (VNum (Int 85)))] ]).
Proof. reflexivity. Qed.

(** A [null] record under the positional format makes the evaluator raise. *)
Example positional_null_record_raises :
  processResultsData (VArr [VArr [VNum (Int 1)]; VNull])
    (mkMappingConfig Organizations Positional "" (Int 0) [])
  = Throw TypeError.
Proof. reflexivity. Qed.

(** ** Catalogue paths and the resolver *)

Lemma append_assoc (a b c : string) : (a ++ b) ++ c = a ++ (b ++ c).
Proof.
  induction a as [ | x a IH ]; simpl; [ reflexivity | now rewrite IH ].
Qed.

Lemma append_empty_r (a : string) : a ++ "" = a.
Proof.
  induction a as [ | x a IH ]; simpl; [ reflexivity | now rewrite IH ].
Qed.

Lemma render_keys (prefix : string) (keys : list string) :
  render prefix (map Key keys) = prefix ++ dotted keys.
Proof.
  unfold render. revert prefix.
  induction keys as [ | key rest IH ]; intros prefix; simpl.
  - now rewrite append_empty_r.
  - rewrite IH. now rewrite append_assoc.
Qed.

Lemma render_cons (prefix : string) (sg : segment) (rest : list segment) :
  render prefix (sg :: rest) = render (prefix ++ render_segment sg) rest.
Proof. reflexivity. Qed.

Lemma split_before_separator (sep : ascii) (key rest : string) :
  Str.mem sep key = false ->
  Str.split sep (key ++ String sep rest) = key :: Str.split sep rest.
Proof.
  induction key as [ | c key IH ]; intros Hfree; simpl in *.
  - now rewrite Ascii.eqb_refl.
  - apply orb_false_elim in Hfree. destruct Hfree as [ Hc Hkey ].
    rewrite Hc, (IH Hkey). reflexivity.
Qed.

Lemma split_without_separator (sep : ascii) (key : string) :
  Str.mem sep key = false -> Str.split sep key = [key].
Proof.
  induction key as [ | c key IH ]; intros Hfree; simpl in *.
  - reflexivity.
  - apply orb_false_elim in Hfree. destruct Hfree as [ Hc Hkey ].
    rewrite Hc, (IH Hkey). reflexivity.
Qed.

Lemma split_dotted (key : string) (keys : list string) :
  forallb (fun k => negb (Str.mem "." k)) (key :: keys) = true ->
  Str.split "." (key ++ dotted keys) = key :: keys.
Proof.
  revert key. induction keys as [ | next rest IH ]; intros key Hfree.
  - simpl in *. rewrite append_empty_r. apply split_without_separator.
    rewrite andb_true_r in Hfree. now apply negb_true_iff.
  - cbn [forallb] in Hfree. apply andb_prop in Hfree.
    destruct Hfree as [ Hkey Hrest ].
    cbn [dotted]. change ("." ++ next ++ dotted rest)
      with (String "." (next ++ dotted rest)).
    rewrite split_before_separator by now apply negb_true_iff.
    now rewrite (IH next Hrest).
Qed.

Lemma filter_all {A : Type} (p : A -> bool) (l : list A) :
  forallb p l = true -> filter p l = l.
Proof.
  induction l as [ | a l IH ]; simpl; intros Hall; [ reflexivity | ].
  apply andb_prop in Hall. destruct Hall as [ Ha Hl ].
  now rewrite Ha, (IH Hl).
Qed.

Lemma plain_key_parts (key : string) :
  plain_key key = true ->
  Str.nonempty key = true /\ Str.mem "." key = false /\ Str.mem "[" key = false.
Proof.
  unfold plain_key, bracket_free. intros Hplain.
  apply andb_prop in Hplain. destruct Hplain as [ Hplain Hbracket ].
  apply andb_prop in Hplain. destruct Hplain as [ Hnonempty Hdot ].
  apply andb_prop in Hbracket. destruct Hbracket as [ Hopen _ ].
  repeat split; auto; now apply negb_true_iff.
Qed.

Lemma forallb_weaken {A : Type} (p q : A -> bool) (l : list A) :
  (forall a, p a = true -> q a = true) ->
  forallb p l = true -> forallb q l = true.
Proof.
  intros Hpq. induction l as [ | a l IH ]; simpl; [ auto | ].
  intros Hall. apply andb_prop in Hall. destruct Hall as [ Ha Hl ].
  now rewrite (Hpq a Ha), (IH Hl).
Qed.

(** Splitting the address rendered from plain keys gives the keys back. *)
Lemma path_parts_of_keys (keys : list string) :
  forallb plain_key keys = true ->
  path_parts (render "$" (map Key keys)) = keys.
Proof.
  intros Hplain. rewrite render_keys.
  destruct keys as [ | key rest ]; [ reflexivity | ].
  unfold path_parts. cbn [dotted].
  change (strip_root ("$" ++ "." ++ key ++ dotted rest))
    with (key ++ dotted rest).
  rewrite split_dotted.
  - apply filter_all. revert Hplain. apply forallb_weaken.
    intros k Hk. now apply plain_key_parts in Hk.
  - revert Hplain. apply forallb_weaken.
    intros k Hk. apply plain_key_parts in Hk. apply negb_true_iff. tauto.
Qed.

Lemma span_rest_mem (p : ascii -> bool) (a : ascii) (s pre post : string) :
  Str.span p s = (pre, post) -> Str.mem a post = true -> Str.mem a s = true.
Proof.
  revert pre post. induction s as [ | c s IH ]; intros pre post Hspan Hmem;
    simpl in Hspan.
  - inversion Hspan; subst. discriminate Hmem.
  - destruct (p c).
    + destruct (Str.span p s) as [ pre' post' ] eqn:Hrest.
      inversion Hspan; subst. simpl.
      rewrite (IH pre' post eq_refl Hmem). apply orb_true_r.
    + inversion Hspan; subst. exact Hmem.
Qed.

(** A segment without an opening bracket is a plain segment. *)
Lemma arrayMatch_plain (part : string) :
  Str.mem "[" part = false -> arrayMatch part = None.
Proof.
  intros Hfree. unfold arrayMatch.
  destruct (Str.span Str.is_word part) as [ key rest ] eqn:Hspan.
  destruct rest as [ | c tail ]; [ reflexivity | ].
  destruct (Ascii.eqb c "[") eqn:Hc; [ | reflexivity ].
  assert (Hmem : Str.mem "[" part = true).
  { apply (span_rest_mem Str.is_word "[" part key (String c tail) Hspan).
    simpl. now rewrite Hc. }
  rewrite Hfree in Hmem. discriminate Hmem.
Qed.

Lemma step_object_plain (kvs : list (string * value)) (key : string) :
  Str.mem "[" key = false ->
  step (VObj kvs) key = Ok (Next (Js.read (VObj kvs) key)).
Proof.
  intros Hfree. unfold step. cbn [Js.nullish Js.is_null].
  rewrite (arrayMatch_plain key Hfree). reflexivity.
Qed.

(** An own key is read as the value stored under it. *)
Lemma read_own (kvs : list (string * value)) (key : string) :
  Js.has_own kvs key = true -> Js.read (VObj kvs) key = J (Js.own kvs key).
Proof. intros Hown. unfold Js.read, Js.own_prop. now rewrite Hown. Qed.

Lemma own_missing (kvs : list (string * value)) (key : string) :
  Js.has_own kvs key = false -> Js.own kvs key = VUndefined.
Proof.
  unfold Js.has_own.
  induction kvs as [ | [ k v ] kvs IH ]; simpl; intros Hmissing.
  - reflexivity.
  - apply orb_false_elim in Hmissing. destruct Hmissing as [ Hk Hrest ].
    rewrite Hk. now apply IH.
Qed.

Lemma has_own_in (kvs : list (string * value)) (key : string) (child : value) :
  In (key, child) kvs -> Js.has_own kvs key = true.
Proof.
  intros Hin. unfold Js.has_own. apply existsb_exists.
  exists (key, child). split; [ exact Hin | apply String.eqb_refl ].
Qed.

Lemma catalog_object_in (kvs : list (string * value)) (segs : list segment) :
  In segs (catalog (VObj kvs)) ->
  exists key child rest,
    In (key, child) kvs
    /\ segs = Key key :: rest
    /\ (rest = [] \/ In rest (catalog child)).
Proof.
  simpl. induction kvs as [ | [ k v ] kvs IH ]; intros Hin.
  - destruct Hin.
  - destruct Hin as [ Hhead | Hin ].
    + exists k, v, []. subst segs. simpl. auto.
    + apply in_app_or in Hin. destruct Hin as [ Hchild | Hlater ].
      * apply in_map_iff in Hchild. destruct Hchild as [ rest [ Heq Hrest ] ].
        exists k, v, rest. subst segs. simpl. auto.
      * destruct (IH Hlater) as [ key [ child [ rest [ Hkv Hsegs ] ] ] ].
        exists key, child, rest. simpl. tauto.
Qed.

Lemma catalog_array_in (xs : list value) (segs : list segment) :
  In segs (catalog (VArr xs)) -> exists rest, segs = Star :: rest.
Proof.
  simpl. intros [ Hhead | Hin ].
  - exists []. now subst.
  - destruct xs as [ | first xs ]; [ destruct Hin | ].
    apply in_map_iff in Hin. destruct Hin as [ rest [ Heq _ ] ].
    exists rest. now subst.
Qed.

Lemma own_of_distinct (kvs : list (string * value)) (key : string)
  (child : value) :
  distinct (map fst kvs) = true -> In (key, child) kvs ->
  Js.own kvs key = child.
Proof.
  induction kvs as [ | [ k v ] kvs IH ]; intros Hdistinct Hin; simpl in *.
  - destruct Hin.
  - apply andb_prop in Hdistinct. destruct Hdistinct as [ Hfresh Hrest ].
    destruct Hin as [ Hhead | Hin ].
    + inversion Hhead; subst. now rewrite String.eqb_refl.
    + destruct (String.eqb k key) eqn:Hk; [ | now apply IH ].
      apply String.eqb_eq in Hk. subst k.
      apply negb_true_iff in Hfresh.
      assert (Hex : existsb (String.eqb key) (map fst kvs) = true).
      { apply existsb_exists. exists key. split.
        - apply in_map_iff. now exists (key, child).
        - apply String.eqb_refl. }
      rewrite Hfresh in Hex. discriminate Hex.
Qed.

Lemma well_formed_object (kvs : list (string * value)) (key : string)
  (child : value) :
  well_formed (VObj kvs) = true -> In (key, child) kvs ->
  distinct (map fst kvs) = true /\ well_formed child = true.
Proof.
  simpl. intros Hwf Hin. apply andb_prop in Hwf.
  destruct Hwf as [ Hdistinct Hchildren ]. split; [ exact Hdistinct | ].
  clear Hdistinct.
  induction kvs as [ | [ k v ] kvs IH ]; [ destruct Hin | ].
  apply andb_prop in Hchildren. destruct Hchildren as [ Hv Hrest ].
  destruct Hin as [ Hhead | Hin ].
  - now inversion Hhead; subst.
  - now apply IH.
Qed.

(** Along a catalogue path of keyed descents with plain keys, the walk of
    the resolver and plain indexing visit the same values. *)
Lemma walk_keyed_path (keys : list string) :
  forall d : value,
    well_formed d = true ->
    In (map Key keys) (catalog d) ->
    forallb plain_key keys = true ->
    exists v, index_chain d keys = Ok v /\ walk d keys = Ok (Next v).
Proof.
  induction keys as [ | key rest IH ]; intros d Hwf Hin Hplain.
  - destruct d as [ | | b | n | s | xs | kvs ]; try (now destruct Hin).
    + apply catalog_array_in in Hin. destruct Hin as [ t Ht ]. discriminate Ht.
    + apply catalog_object_in in Hin.
      destruct Hin as [ k [ c [ t [ _ [ Ht _ ] ] ] ] ]. discriminate Ht.
  - destruct d as [ | | b | n | s | xs | kvs ]; try (now destruct Hin).
    + apply catalog_array_in in Hin. destruct Hin as [ t Ht ]. discriminate Ht.
    + apply catalog_object_in in Hin.
      destruct Hin as [ k [ child [ t [ Hkv [ Hsegs Ht ] ] ] ] ].
      simpl in Hsegs. inversion Hsegs; subst k t. clear Hsegs.
      destruct (well_formed_object _ _ _ Hwf Hkv) as [ Hdistinct Hchild ].
      cbn [forallb] in Hplain. apply andb_prop in Hplain.
      destruct Hplain as [ Hkey Hrest ].
      apply plain_key_parts in Hkey. destruct Hkey as [ _ [ _ Hopen ] ].
      cbn [index_chain walk]. rewrite (step_object_plain _ _ Hopen).
      unfold Js.get_prop. cbn [Js.nullish Js.is_null bind].
      rewrite (read_own _ _ (has_own_in _ _ _ Hkv)).
      rewrite (own_of_distinct _ _ _ Hdistinct Hkv).
      destruct Ht as [ Hlast | Hdeeper ].
      * destruct rest; [ | discriminate Hlast ]. exists child. now split.
      * apply (IH child Hchild Hdeeper Hrest).
Qed.

(** [extractJsonPaths] prints the catalogue. *)
Lemma extractJsonPaths_catalog (d : value) :
  forall prefix, extractJsonPaths d prefix = map (render prefix) (catalog d).
Proof.
  induction d as [ | | b | n | s | xs IHxs | kvs IHkvs ] using value_ind;
    intros prefix; try reflexivity.
  - simpl. f_equal. destruct xs as [ | first xs ]; [ reflexivity | ].
    inversion IHxs as [ | ? ? Hfirst _ ]; subst.
    rewrite Hfirst, map_map. reflexivity.
  - simpl. induction kvs as [ | [ k v ] kvs IH ]; [ reflexivity | ].
    inversion IHkvs as [ | ? ? Hv Hrest ]; subst. simpl in Hv.
    rewrite (IH Hrest), Hv. simpl. rewrite map_app, map_map. reflexivity.
Qed.

(** Every enumerated path is the rendering of a catalogue entry. *)
Lemma enumerated_path_has_segments (d : value) (p : string) :
  In p (extractJsonPaths d "$") <->
  exists segs, In segs (catalog d) /\ p = render "$" segs.
Proof.
  rewrite extractJsonPaths_catalog, in_map_iff.
  split; intros [ segs [ H1 H2 ] ]; exists segs; auto.
Qed.

(** C2 as stated fails: in [{ "a.b": 1 }] the catalogue emits the path
    ["$.a.b"] from the single key [a.b], free of brackets and wildcards;
    indexing the document by that key gives [1], but the resolver splits the
    path at the dot and returns [null]. *)
Lemma dotted_key_path_misses :
  ~ (forall d keys,
        well_formed d = true ->
        In (map Key keys) (catalog d) ->
        forallb bracket_free keys = true ->
        exists v,
          index_chain d keys = Ok v
          /\ extractValue d (render "$" (map Key keys)) Json = Ok v).
Proof.
  intros Hclaim.
  destruct (Hclaim (VObj [("a.b", VNum (Int 1))]) ["a.b"]
              eq_refl (or_introl eq_refl) eq_refl)
    as [ v [ Hindex Hresolve ] ].
  vm_compute in Hindex. vm_compute in Hresolve. congruence.
Qed.

(** The empty key misses in the same way: its path ["$."] has no parts and
    resolves to the document itself. *)
Example empty_key_path_misses :
  let d := VObj [("", VNum (Int 7))] in
  extractJsonPaths d "$" = ["$."]
  /\ index_chain d [""] = Ok (VNum (Int 7))
  /\ extractValue d "$." Json = Ok d.
Proof. cbv zeta. refine (conj _ (conj _ _)); reflexivity. Qed.

(** C2, amended: for every document whose objects hold each key once, every
    path the catalogue builds from keyed descents alone, through keys that
    are not empty and contain neither a dot nor a bracket, is among the
    paths [extractJsonPaths] returns and resolves under the keyed format to
    exactly the value reached by indexing the document by those keys in
    order. *)
Theorem keyed_catalog_path_resolves (d : value) (keys : list string) :
  well_formed d = true ->
  In (map Key keys) (catalog d) ->
  forallb plain_key keys = true ->
  In (render "$" (map Key keys)) (extractJsonPaths d "$")
  /\ exists v,
       index_chain d keys = Ok v
       /\ extractValue d (render "$" (map Key keys)) Json = Ok v.
Proof.
  intros Hwf Hin Hplain. split.
  - rewrite extractJsonPaths_catalog. now apply in_map.
  - destruct (walk_keyed_path keys d Hwf Hin Hplain) as [ v [ Hindex Hwalk ] ].
    exists v. split; [ exact Hindex | ].
    assert (Htruthy : Js.truthy d = true)
      by (destruct d; try reflexivity; destruct Hin).
    unfold extractValue.
    rewrite Htruthy, (path_parts_of_keys keys Hplain), Hwalk. reflexivity.
Qed.

Lemma keyed_catalog_path_resolves_witness :
  let d :=
    VObj [ ("a", VObj [("b", VArr [VNum (Int 1); VNum (Int 2); VNum (Int 3)])]);
           ("c", VNum (Int 0)) ] in
  In "$.a.b" (extractJsonPaths d "$")
  /\ exists v,
       index_chain d ["a"; "b"] = Ok v
       /\ extractValue d "$.a.b" Json = Ok v.
Proof.
  cbv zeta.
  refine (keyed_catalog_path_resolves
            (VObj [ ("a", VObj [("b", VArr [VNum (Int 1); VNum (Int 2);
                                             VNum (Int 3)])]);
                    ("c", VNum (Int 0)) ])
            ["a"; "b"] eq_refl _ eq_refl).
  simpl. auto.
Defined.

(* ================================================================== *)
(** * Further properties of the code *)

(** ** Printed integers and [parseInt] *)

Lemma digits_from_numeral (u : Decimal.uint) :
  forall acc,
    Str.digits_from 10 (Some acc) (NilEmpty.string_of_uint u)
    = Some (uint_value acc u).
Proof.
  induction u; intros acc; cbn [NilEmpty.string_of_uint Str.digits_from uint_value];
    try reflexivity;
    match goal with
    | |- context [Str.digit_value 10 ?c] =>
        let v := eval vm_compute in (Str.digit_value 10 c) in
        change (Str.digit_value 10 c) with v
    end; cbv iota beta; apply IHu.
Qed.

Lemma uint_value_pos (u : Decimal.uint) :
  forall p, uint_value (Z.pos p) u = Z.pos (Pos.of_uint_acc u p).
Proof.
  induction u; intros p; cbn [uint_value Pos.of_uint_acc]; try reflexivity;
    rewrite <- IHu; f_equal; lia.
Qed.

Lemma uint_value_zero (u : Decimal.uint) :
  uint_value 0 u = Z.of_N (Pos.of_uint u).
Proof.
  induction u; cbn [uint_value Pos.of_uint]; try reflexivity;
    try exact IHu;
    change (0 * 10 + 1)%Z with 1%Z; change (0 * 10 + 2)%Z with 2%Z;
    change (0 * 10 + 3)%Z with 3%Z; change (0 * 10 + 4)%Z with 4%Z;
    change (0 * 10 + 5)%Z with 5%Z; change (0 * 10 + 6)%Z with 6%Z;
    change (0 * 10 + 7)%Z with 7%Z; change (0 * 10 + 8)%Z with 8%Z;
    change (0 * 10 + 9)%Z with 9%Z; apply uint_value_pos.
Qed.

Lemma numeral_digits (u : Decimal.uint) :
  Str.all Str.is_digit (NilEmpty.string_of_uint u) = true.
Proof.
  induction u; cbn [NilEmpty.string_of_uint Str.all]; try reflexivity;
    rewrite IHu; reflexivity.
Qed.

Ltac eval_char_tests :=
  repeat match goal with
    | |- context [Str.is_space (Ascii ?a ?b ?c ?d ?e ?f ?g ?h)] =>
        let v := eval vm_compute in (Str.is_space (Ascii a b c d e f g h)) in
        change (Str.is_space (Ascii a b c d e f g h)) with v
    | |- context [Str.digit_value ?r (Ascii ?a ?b ?c ?d ?e ?f ?g ?h)] =>
        let v := eval vm_compute in (Str.digit_value r (Ascii a b c d e f g h)) in
        change (Str.digit_value r (Ascii a b c d e f g h)) with v
    end.

Ltac run_parseInt :=
  unfold Js.parseInt;
  cbn [NilEmpty.string_of_uint Str.drop_while]; eval_char_tests;
  cbv beta iota;
  cbn [Str.digits_from]; eval_char_tests; cbv beta iota;
  rewrite ?digits_from_numeral; reflexivity.

Lemma parseInt_numeral (u : Decimal.uint) :
  u <> Decimal.Nil ->
  Js.parseInt (NilEmpty.string_of_uint u) = Int (uint_value 0 u)
  /\ Js.parseInt (String "-" (NilEmpty.string_of_uint u)) = Int (- uint_value 0 u).
Proof.
  intros Hnil.
  destruct u as [ | u | u | u | u | u | u | u | u | u | u ];
    [ contradiction | | split; run_parseInt .. ].
  destruct u; split; run_parseInt.
Qed.

Lemma parseInt_num_to_string (z : Z) :
  Js.parseInt (Js.num_to_string (Int z)) = Int z.
Proof.
  destruct z as [ | p | p ]; [ reflexivity | | ].
  - cbn [Js.num_to_string Z.to_int NilZero.string_of_int].
    unfold NilZero.string_of_uint.
    pose proof (DecimalPos.Unsigned.to_uint_nonnil p) as Hnil.
    destruct (Pos.to_uint p) eqn:Hu; try contradiction; rewrite <- Hu;
      rewrite <- Hu in Hnil;
      rewrite (proj1 (parseInt_numeral _ Hnil)), uint_value_zero,
        DecimalPos.Unsigned.of_to; reflexivity.
  - cbn [Js.num_to_string Z.to_int NilZero.string_of_int].
    unfold NilZero.string_of_uint.
    pose proof (DecimalPos.Unsigned.to_uint_nonnil p) as Hnil.
    destruct (Pos.to_uint p) eqn:Hu; try contradiction; rewrite <- Hu;
      rewrite <- Hu in Hnil;
      rewrite (proj2 (parseInt_numeral _ Hnil)), uint_value_zero,
        DecimalPos.Unsigned.of_to; reflexivity.
Qed.

(** ** Positional addresses and the index selector *)

Ltac eval_flat_test :=
  repeat match goal with
    | H : context [negb (String.eqb (Js.typeof ?x) "object") || Js.is_null ?x]
      |- _ =>
        let v := eval vm_compute in
                   (negb (String.eqb (Js.typeof x) "object") || Js.is_null x) in
        change (negb (String.eqb (Js.typeof x) "object") || Js.is_null x)
          with v in H
    | |- context [negb (String.eqb (Js.typeof ?x) "object") || Js.is_null ?x] =>
        let v := eval vm_compute in
                   (negb (String.eqb (Js.typeof x) "object") || Js.is_null x) in
        change (negb (String.eqb (Js.typeof x) "object") || Js.is_null x) with v
    end.

Lemma positional_numeral_lookup (xs : list value) (z : Z) :
  extractValue (VArr xs) (Js.num_to_string (Int z)) Positional
  = Ok (if (0 <=? z)%Z && (z <? Z.of_nat (List.length xs))%Z
        then nth (Z.to_nat z) xs VUndefined
        else VUndefined).
Proof.
  unfold extractValue. cbn [Js.truthy negb Js.isArray].
  rewrite parseInt_num_to_string. cbn [Js.get_elem].
  destruct (Z.leb_spec 0 z) as [ Hnonneg | Hneg ]; [ | reflexivity ].
  destruct (Z.ltb_spec z (Z.of_nat (List.length xs))) as [ Hin | Hout ];
    [ reflexivity | ].
  cbn [andb]. rewrite nth_overflow by lia. reflexivity.
Qed.

(** X1: under the positional format the address that [String] prints for a
    safe integer (one of magnitude below 2^53, which [String] prints in
    plain decimal) resolves, on a sequence, to the element at that position
    when the integer is within bounds and to [undefined] when it is negative
    or past the end. *)
Theorem positional_index_bounds (xs : list value) (z : Z) :
  Js.safe (Int z) = true ->
  (((0 <= z < Z.of_nat (List.length xs))%Z ->
    extractValue (VArr xs) (Js.num_to_string (Int z)) Positional
    = Ok (nth (Z.to_nat z) xs VUndefined))
   /\ ((z < 0 \/ Z.of_nat (List.length xs) <= z)%Z ->
       extractValue (VArr xs) (Js.num_to_string (Int z)) Positional
       = Ok VUndefined)).
Proof.
  intros _. rewrite positional_numeral_lookup. split.
  - intros [ Hlow Hhigh ].
    apply Z.leb_le in Hlow. apply Z.ltb_lt in Hhigh.
    now rewrite Hlow, Hhigh.
  - intros [ Hneg | Hpast ].
    + apply Z.leb_gt in Hneg. now rewrite Hneg.
    + apply Z.ltb_ge in Hpast. rewrite Hpast. now rewrite andb_false_r.
Qed.

Lemma positional_index_bounds_witness :
  extractValue (VArr [VNum (Int 1); VNum (Int 2); VNum (Int 3)]) "1" Positional
  = Ok (VNum (Int 2))
  /\ extractValue (VArr [VNum (Int 1); VNum (Int 2); VNum (Int 3)]) "5" Positional
     = Ok VUndefined.
Proof.
  split.
  - apply (proj1 (positional_index_bounds
                    [VNum (Int 1); VNum (Int 2); VNum (Int 3)] 1 eq_refl)).
    simpl. lia.
  - apply (proj2 (positional_index_bounds
                    [VNum (Int 1); VNum (Int 2); VNum (Int 3)] 5 eq_refl)).
    simpl. lia.
Defined.

(** X2: every index the selector offers ([getAvailableIndices]), written as the
    selector writes it ([String(idx)]), resolves against the first record of
    the positional record collection to the value whose preview is the sample
    shown at that index. *)
Theorem offered_index_resolves (stringify : value -> value) (data : value)
  (idx : number) :
  In idx (getAvailableIndices data) ->
  exists i record rest (v : value),
    idx = Int (Z.of_nat i)
    /\ records Positional data = Ok (record :: rest)
    /\ extractValue record (Js.num_to_string idx) Positional = Ok v
    /\ nth i (getPositionalSampleValues stringify data) VUndefined
       = sample stringify v.
Proof.
  unfold getAvailableIndices. intros Hin.
  apply in_map_iff in Hin. destruct Hin as [ i [ Hidx Hi ] ].
  apply in_seq in Hi. destruct Hi as [ _ Hi ]. cbn [Nat.add] in Hi.
  subst idx.
  destruct data as [ | | b | n | s | xs | kvs ];
    try (unfold getPositionalArrayLength in Hi; cbn in Hi;
         repeat match type of Hi with
                | context [if ?c then _ else _] => destruct c
                end; lia).
  destruct xs as [ | firstItem rest ]; [ cbn in Hi; lia | ].
  unfold getPositionalArrayLength in Hi.
  cbn [Js.truthy negb List.length Nat.eqb nth] in Hi.
  unfold getPositionalSampleValues. cbn [List.length Nat.eqb nth].
  destruct firstItem as [ | | b | n | s | ys | kvs ];
    eval_flat_test; cbv iota in Hi |- *; try lia.
  1-5: match goal with
       | H : ?j < _ |- context [records Positional (VArr ?l)] =>
           exists j; exists (VArr l); exists (@nil value);
           exists (nth j l VUndefined)
       end;
       (split; [ reflexivity | ]);
       (split; [ reflexivity | ]);
       (split;
        [ rewrite positional_numeral_lookup;
          replace (0 <=? Z.of_nat i)%Z with true
            by (symmetry; apply Z.leb_le; lia);
          match goal with
          | |- context [(Z.of_nat ?k <? ?n)%Z] =>
              replace (Z.of_nat k <? n)%Z with true
                by (symmetry; apply Z.ltb_lt; cbn [List.length]; lia)
          end;
          now rewrite Nat2Z.id
        | exact (map_nth (sample stringify) _ VUndefined _) ]).
  exists i, (VArr ys), rest, (nth i ys VUndefined).
  split; [ reflexivity | ].
  split; [ reflexivity | ].
  split.
  - rewrite positional_numeral_lookup.
    replace (0 <=? Z.of_nat i)%Z with true by (symmetry; apply Z.leb_le; lia).
    replace (Z.of_nat i <? Z.of_nat (List.length ys))%Z with true
      by (symmetry; apply Z.ltb_lt; lia).
    now rewrite Nat2Z.id.
  - exact (map_nth (sample stringify) ys VUndefined i).
Qed.

(** ** The evaluator *)

Lemma probe_ok (data : value) (keys : list string) :
  Js.nullish data = false -> exists rs, probe data keys = Ok rs.
Proof.
  intros Hdata. induction keys as [ | key rest IH ]; cbn [probe]; eauto.
  rewrite get_prop_total by exact Hdata. cbn [bind].
  destruct (Js.elements (Js.read data key)); eauto.
Qed.

Lemma truthy_not_nullish (v : value) :
  Js.truthy v = true -> Js.nullish v = false.
Proof. destruct v; simpl; congruence. Qed.

Lemma records_ok (format : ResponseFormat) (data : value) :
  Js.truthy data = true -> exists rs, records format data = Ok rs.
Proof.
  intros Htruthy. destruct format; unfold records.
  - destruct data; try discriminate Htruthy; eauto;
      match goal with
      | |- context [probe ?d ?ks] =>
          destruct (probe_ok d ks eq_refl) as [ found Hfound ];
          rewrite Hfound; simpl;
          match goal with
          | |- context [if ?c then _ else _] => destruct c; eauto
          end
      end.
  - destruct data as [ | | b | n | s | xs | kvs ]; eauto.
    destruct (get_elem_array_ok xs (Int 0)) as [ first Hfirst ].
    rewrite Hfirst. simpl. destruct (Js.isArray first); eauto.
Qed.

(** A loop over a list raises exactly when its body raises on some element;
    when it does not raise it gives one result per element. *)
Lemma mapM_raises {A B : Type} (f : A -> result B) (l : list A) :
  (mapM f l = Throw TypeError <-> exists a, In a l /\ f a = Throw TypeError)
  /\ (mapM f l = Throw TypeError
      \/ exists bs, mapM f l = Ok bs /\ List.length bs = List.length l).
Proof.
  induction l as [ | a l [ [ IHthrows IHfound ] IHcases ] ].
  - split; [ split; [ discriminate | intros [ a [ [] _ ] ] ] | ].
    right. exists []. split; reflexivity.
  - cbn [mapM]. destruct (f a) as [ b | [] ] eqn:Hfa; cbn [bind].
    + destruct IHcases as [ Hthrow | [ bs [ Hbs Hlen ] ] ].
      * rewrite Hthrow. cbn [bind].
        split; [ split; [ | reflexivity ] | left; reflexivity ].
        intros _. destruct (IHthrows Hthrow) as [ x [ Hin Hx ] ].
        exists x. split; [ now right | exact Hx ].
      * rewrite Hbs. cbn [bind]. split.
        -- split; [ discriminate | ].
           intros [ x [ [ <- | Hin ] Hx ] ]; [ congruence | ].
           assert (Hthrow : mapM f l = Throw TypeError)
             by (apply IHfound; eauto).
           congruence.
        -- right. exists (b :: bs). split; [ reflexivity | ].
           simpl. now rewrite Hlen.
    + split; [ split; [ | reflexivity ] | left; reflexivity ].
      intros _. exists a. split; [ now left | exact Hfa ].
Qed.

(** The entity key of a located value: [String()] raises on it exactly when
    it is an unprintable document value. *)
Lemma key_text_spec (located : jsval) :
  match located with
  | J d => if unprintable d then key_text located = Throw TypeError
           else exists key, key_text located = Ok key
  | _ => exists key, key_text located = Ok key
  end.
Proof.
  destruct located as [ d | p | p name ].
  - unfold key_text, Js.or. destruct (Js.truthy (J d)) eqn:Htruthy.
    + exact (String_of_spec d).
    + destruct d as [ | | b | n | s | xs | kvs ]; try discriminate Htruthy;
        simpl; eauto.
  - destruct p; unfold key_text; simpl; eauto.
  - unfold key_text. simpl. eauto.
Qed.

Lemma process_record_spec (cfg : MappingConfig) (record : value) :
  no_prototype_key (mappings cfg) = true ->
  (process_record cfg record = Throw TypeError
   <-> key_value cfg record = Throw TypeError
       \/ exists d, key_value cfg record = Ok (J d) /\ unprintable d = true)
  /\ (process_record cfg record = Throw TypeError
      \/ exists row, process_record cfg record = Ok row).
Proof.
  intros Hplain. unfold process_record, extract_entityKey.
  destruct (map_fields_ok record (responseFormat cfg) (mappings cfg)
              (object_literal []) eq_refl Hplain)
    as [ fields Hfields ].
  destruct (key_value cfg record) as [ located | [] ]; cbn [bind].
  2: { split; [ split; auto | left; reflexivity ]. }
  pose proof (key_text_spec located) as Hspec. unfold key_text in Hspec.
  destruct located as [ d | p | p name ].
  - destruct (unprintable d) eqn:Hd.
    + rewrite Hspec. cbn [bind].
      split; [ split; [ | reflexivity ] | left; reflexivity ].
      intros _. right. exists d. split; [ reflexivity | exact Hd ].
    + destruct Hspec as [ key Hkey ]. rewrite Hkey. cbn [bind].
      rewrite Hfields. cbn [bind]. split; [ | right; eauto ].
      split; [ discriminate | ].
      intros [ Hraised | [ d' [ Hlocated Hd' ] ] ]; [ discriminate Hraised | ].
      inversion Hlocated; subst d'. congruence.
  - destruct Hspec as [ key Hkey ]. rewrite Hkey. cbn [bind].
    rewrite Hfields. cbn [bind]. split; [ | right; eauto ].
    split; [ discriminate | ].
    intros [ Hraised | [ d' [ Hlocated _ ] ] ]; discriminate.
  - destruct Hspec as [ key Hkey ]. rewrite Hkey. cbn [bind].
    rewrite Hfields. cbn [bind]. split; [ | right; eauto ].
    split; [ discriminate | ].
    intros [ Hraised | [ d' [ Hlocated _ ] ] ]; discriminate.
Qed.

(** The rows of the organizations target: when no mapping writes under
    [__proto__], the evaluator raises exactly when the key of some record
    cannot be read or cannot be printed. *)
Lemma rows_spec (data : value) (cfg : MappingConfig) (rs : list value) :
  Js.truthy data = true ->
  target cfg = Organizations ->
  no_prototype_key (mappings cfg) = true ->
  records (responseFormat cfg) data = Ok rs ->
  (processResultsData data cfg = Throw TypeError
   <-> exists record,
         In record rs
         /\ (key_value cfg record = Throw TypeError
             \/ exists d, key_value cfg record = Ok (J d)
                          /\ unprintable d = true))
  /\ (processResultsData data cfg = Throw TypeError
      \/ exists rows,
           processResultsData data cfg = Ok (OutRows rows)
           /\ List.length rows = List.length rs).
Proof.
  intros Htruthy Htarget Hplain Hrecords. unfold processResultsData.
  rewrite Htruthy, Htarget, Hrecords. cbn [negb bind].
  destruct (mapM_raises (process_record cfg) rs) as [ Hiff Hcases ].
  destruct (mapM (process_record cfg) rs) as [ rows | [] ]; cbn [bind].
  - split.
    + split; [ discriminate | ].
      intros [ record [ Hin Hkey ] ]. exfalso.
      assert (Hraised : @Ok (list ProcessedRow) rows = Throw TypeError).
      { apply (proj2 Hiff). exists record. split; [ exact Hin | ].
        now apply (proj2 (proj1 (process_record_spec cfg record Hplain))). }
      discriminate Hraised.
    + right. exists rows. split; [ reflexivity | ].
      destruct Hcases as [ Hraised | [ bs [ Hbs Hlen ] ] ];
        [ discriminate Hraised | ].
      inversion Hbs; subst bs. exact Hlen.
  - split; [ split; [ | reflexivity ] | left; reflexivity ].
    intros _. destruct (proj1 Hiff eq_refl) as [ record [ Hin Hraised ] ].
    exists record. split; [ exact Hin | ].
    now apply (proj1 (proj1 (process_record_spec cfg record Hplain))).
Qed.

Lemma get_elem_raises (v : jsval) (n : number) :
  Js.get_elem v n = Throw TypeError <-> Js.nullish v = true.
Proof.
  destruct (Js.nullish v) eqn:Hv.
  - split; [ reflexivity | intros _ ].
    destruct v as [ [ | | b | m | s | xs | kvs ] | p | p name ];
      try discriminate Hv; destruct n; reflexivity.
  - destruct (get_elem_total v n Hv) as [ r Hr ]. rewrite Hr.
    split; discriminate.
Qed.

(** X4: when no mapping writes under the key [__proto__], the evaluator
    never raises for the portfolio target, whatever the document and the
    format.  For the organizations target under the keyed format, on a
    truthy document, it then raises a TypeError exactly when the value
    [keyPath] resolves to in some record is one that [String()] cannot
    convert (a keyed-mapping with an own [toString] key, or a sequence
    holding one); otherwise it returns one row per record of the record
    collection. *)
Theorem keyed_evaluation_raises_iff (data : value) (cfg : MappingConfig) :
  no_prototype_key (mappings cfg) = true ->
  (target cfg = Portfolio -> exists out, processResultsData data cfg = Ok out)
  /\ (Js.truthy data = true ->
      target cfg = Organizations ->
      responseFormat cfg = Json ->
      exists rs,
        records Json data = Ok rs
        /\ (processResultsData data cfg = Throw TypeError
            <-> exists record d,
                  In record rs
                  /\ extractValue record (keyPath cfg) Json = Ok (J d)
                  /\ unprintable d = true)
        /\ (processResultsData data cfg = Throw TypeError
            \/ exists rows,
                 processResultsData data cfg = Ok (OutRows rows)
                 /\ List.length rows = List.length rs)).
Proof.
  intros Hplain. split.
  - intros Htarget. unfold processResultsData. rewrite Htarget.
    destruct (Js.truthy data); cbn [negb]; [ | eauto ].
    destruct (map_fields_ok data (responseFormat cfg) (mappings cfg)
                (object_literal []) eq_refl Hplain)
      as [ fields Hfields ].
    rewrite Hfields. cbn [bind]. eauto.
  - intros Htruthy Htarget Hformat.
    destruct (records_ok Json data Htruthy) as [ rs Hrs ].
    exists rs. split; [ exact Hrs | ].
    assert (Hrecords : records (responseFormat cfg) data = Ok rs)
      by now rewrite Hformat.
    destruct (rows_spec data cfg rs Htruthy Htarget Hplain Hrecords)
      as [ Hiff Hcases ].
    split; [ | exact Hcases ].
    rewrite Hiff. unfold key_value. rewrite Hformat.
    split.
    + intros [ record [ Hin [ Hraised | [ d [ Hlocated Hd ] ] ] ] ].
      * destruct (extractValue_ok record (keyPath cfg) Json) as [ v Hv ].
        congruence.
      * exists record, d. auto.
    + intros [ record [ d [ Hin [ Hlocated Hd ] ] ] ].
      exists record. split; [ exact Hin | ]. right. exists d. auto.
Qed.

Lemma keyed_evaluation_raises_iff_witness :
  processResultsData
    (VObj [("data", VArr [ VObj [("id", VStr "RENEW")];
                           VObj [("id", VObj [("toString", VNum (Int 1))])] ])])
    (mkMappingConfig Organizations Json "$.id" (Int 0) [])
  = Throw TypeError.
Proof.
  destruct (proj2 (keyed_evaluation_raises_iff
                     (VObj [("data",
                             VArr [ VObj [("id", VStr "RENEW")];
                                    VObj [("id", VObj [("toString",
                                                        VNum (Int 1))])] ])])
                     (mkMappingConfig Organizations Json "$.id" (Int 0) [])
                     eq_refl)
              eq_refl eq_refl eq_refl)
    as [ rs [ Hrs [ Hiff _ ] ] ].
  apply (proj2 Hiff).
  exists (VObj [("id", VObj [("toString", VNum (Int 1))])]),
    (VObj [("toString", VNum (Int 1))]).
  split; [ | split; reflexivity ].
  inversion Hrs. simpl. auto.
Defined.

(** A record whose key value is printable gives a row, also next to one
    that does not. *)
Example keyed_null_record_gives_unknown :
  processResultsData
    (VObj [("data", VArr [VObj [("id", VStr "RENEW")]; VNull])])
    (mkMappingConfig Organizations Json "$.id" (Int 0) [])
  = Ok (OutRows [ mkProcessedRow "RENEW" (VStr "Hotel Renew") [];
                  mkProcessedRow "unknown" (VStr "Property unknown") [] ]).
Proof. reflexivity. Qed.

(** X5: for the organizations target under the positional format, with a
    [keyIndex] that is a safe integer or no integer and no mapping that
    writes under the key [__proto__], on a truthy document, the evaluator
    raises a TypeError exactly when some record of the record collection is
    [null] or [undefined], or holds at [keyIndex] a value that [String()]
    cannot convert (a keyed-mapping with an own [toString] key, or a
    sequence holding one); otherwise it returns one row per record. *)
Theorem positional_evaluation_raises_iff (data : value) (cfg : MappingConfig)
  (rs : list value) :
  Js.truthy data = true ->
  target cfg = Organizations ->
  responseFormat cfg = Positional ->
  Js.safe (keyIndex cfg) = true ->
  no_prototype_key (mappings cfg) = true ->
  records Positional data = Ok rs ->
  (processResultsData data cfg = Throw TypeError
   <-> exists record,
         In record rs
         /\ (Js.nullish record = true
             \/ exists d, Js.get_elem record (keyIndex cfg) = Ok (J d)
                          /\ unprintable d = true))
  /\ (processResultsData data cfg = Throw TypeError
      \/ exists rows,
           processResultsData data cfg = Ok (OutRows rows)
           /\ List.length rows = List.length rs).
Proof.
  intros Htruthy Htarget Hformat _ Hplain Hrecords.
  assert (Hrs : records (responseFormat cfg) data = Ok rs)
    by now rewrite Hformat.
  destruct (rows_spec data cfg rs Htruthy Htarget Hplain Hrs)
    as [ Hiff Hcases ].
  split; [ | exact Hcases ].
  rewrite Hiff. unfold key_value. rewrite Hformat.
  split; intros [ record [ Hin Hkey ] ]; exists record;
    (split; [ exact Hin | ]);
    destruct Hkey as [ Hraised | Hunprintable ];
    [ left | now right | left | now right ].
  - exact (proj1 (get_elem_raises record (keyIndex cfg)) Hraised).
  - exact (proj2 (get_elem_raises record (keyIndex cfg)) Hraised).
Qed.

Lemma positional_evaluation_raises_iff_witness :
  processResultsData (VArr [VArr [VNum (Int 1)]; VNull]) initial_mappingConfig
  = Throw TypeError.
Proof.
  apply (proj2 (proj1 (positional_evaluation_raises_iff
                         (VArr [VArr [VNum (Int 1)]; VNull])
                         initial_mappingConfig
                         [VArr [VNum (Int 1)]; VNull]
                         eq_refl eq_refl eq_refl eq_refl eq_refl eq_refl))).
  exists VNull. split; [ simpl; auto | left; reflexivity ].
Defined.

(** A key value with an own [toString] key makes the evaluator raise. *)
Example positional_unprintable_key_raises :
  processResultsData
    (VArr [VArr [VObj [("toString", VNum (Int 1))]; VStr "RENEW"]])
    (mkMappingConfig Organizations Positional "" (Int 0) [])
  = Throw TypeError.
Proof. reflexivity. Qed.

(** ** Assignments to the result object *)

Lemma has_key_map (kvs : list (string * jsval)) (key : string) :
  existsb (fun kv => String.eqb (fst kv) key) kvs
  = existsb (String.eqb key) (map fst kvs).
Proof.
  induction kvs as [ | [ k old ] kvs IH ]; simpl; [ reflexivity | ].
  now rewrite IH, (String.eqb_sym k key).
Qed.


Lemma field_replace (kvs : list (string * jsval)) (key key' : string)
  (v : jsval) :
  existsb (String.eqb key) (map fst kvs) = true ->
  field (replace kvs key v) key'
  = if String.eqb key key' then v else field kvs key'.
Proof.
  induction kvs as [ | [ k old ] kvs IH ]; simpl; intros Hkey.
  - discriminate Hkey.
  - rewrite (String.eqb_sym key k) in Hkey.
    destruct (String.eqb_spec k key) as [ -> | Hk ]; simpl.
    + now destruct (String.eqb key key').
    + rewrite (IH Hkey).
      destruct (String.eqb_spec k key') as [ -> | Hk' ]; [ | reflexivity ].
      destruct (String.eqb_spec key key') as [ <- | _ ];
        [ contradiction | reflexivity ].
Qed.

Lemma field_place (kvs : list (string * jsval)) (key key' : string)
  (v : jsval) :
  existsb (String.eqb key) (map fst kvs) = false ->
  field (place kvs key v) key'
  = if String.eqb key key' then v else field kvs key'.
Proof.
  induction kvs as [ | [ k old ] kvs IH ]; intros Hkey.
  - reflexivity.
  - cbn [map fst existsb] in Hkey. apply orb_false_elim in Hkey.
    destruct Hkey as [ Hk Hrest ].
    assert (Hlater : field ((k, old) :: place kvs key v) key'
                     = if String.eqb key key' then v
                       else field ((k, old) :: kvs) key').
    { cbn [field]. rewrite (IH Hrest).
      destruct (String.eqb_spec k key') as [ -> | Hk' ]; [ | reflexivity ].
      now rewrite Hk. }
    cbn [place].
    destruct (array_index key) as [ i | ]; [ | exact Hlater ].
    destruct (array_index k) as [ j | ]; [ | reflexivity ].
    destruct (Z.ltb i j); [ reflexivity | exact Hlater ].
Qed.



(** After an assignment that updates or creates the own property [key], the
    own property [key'] is [v] when [key'] is [key] and what it was
    otherwise. *)
Lemma field_put (kvs : list (string * jsval)) (key key' : string) (v : jsval) :
  field (put kvs key v) key'
  = if String.eqb key key' then v else field kvs key'.
Proof.
  unfold put. rewrite has_key_map.
  destruct (existsb (String.eqb key) (map fst kvs)) eqn:Hhas.
  - now apply field_replace.
  - now apply field_place.
Qed.









(** Keys that are array indices are listed first, in ascending order; an
    assignment of a number to [__proto__] changes nothing. *)
Example portfolio_key_order :
  processResultsData (VArr [VNum (Int 7); VNum (Int 8)])
    (mkMappingConfig Portfolio Positional "" (Int 0)
       [ mkFieldMapping "1" "0" "data" "__proto__";
         mkFieldMapping "2" "0" "data" "b";
         mkFieldMapping "3" "1" "data" "10";
         mkFieldMapping "4" "1" "data" "2" ])
  = Ok (OutRecord [ ("2", J (VNum (Int 8))); ("10", J (VNum (Int 8)));
                    ("b", J (VNum (Int 7))) ]).
Proof. reflexivity. Qed.

(** An assignment of [null] to [__proto__] takes the prototype away, and
    with it the accessor: the next assignment to [__proto__] creates an own
    property. *)
Example portfolio_prototype_removed :
  processResultsData (VObj [("a", VNum (Int 1))])
    (mkMappingConfig Portfolio Json "" (Int 0)
       [ mkFieldMapping "1" "$.b.c" "data" "__proto__";
         mkFieldMapping "2" "$.a" "data" "__proto__" ])
  = Ok (OutRecord (mkResultObject [("__proto__", J (VNum (Int 1)))] VNull)).
Proof. reflexivity. Qed.

(** With a function as prototype, an assignment to its read-only [name] is
    refused: the evaluator raises, also for the portfolio target. *)
Example portfolio_assignment_refused :
  processResultsData (VObj [("a", VNum (Int 1))])
    (mkMappingConfig Portfolio Json "" (Int 0)
       [ mkFieldMapping "1" "$.constructor" "data" "__proto__";
         mkFieldMapping "2" "$.a" "data" "name" ])
  = Throw TypeError.
Proof. reflexivity. Qed.

(** ** Output keys, the directory, the editors and the steps *)

Lemma label_lookup (options : list FieldOption) (field : string) :
  forallb (fun f => Str.nonempty (label f)) options = true ->
  (In field (map value_of options) ->
   exists f,
     find (fun f => String.eqb (value_of f) field) options = Some f
     /\ In f options
     /\ or_string (Some (label f)) field = label f)
  /\ (~ In field (map value_of options) ->
      find (fun f => String.eqb (value_of f) field) options = None).
Proof.
  induction options as [ | o rest IH ]; simpl; intros Hlabels.
  - split; [ intros [] | reflexivity ].
  - apply andb_prop in Hlabels. destruct Hlabels as [ Ho Hrest ].
    destruct (IH Hrest) as [ IHin IHout ].
    destruct (String.eqb_spec (value_of o) field) as [ Heq | Hneq ].
    + split; [ | intros Hnot; exfalso; apply Hnot; now left ].
      intros _. exists o. repeat split; auto.
      unfold or_string. now rewrite Ho.
    + split.
      * intros [ Hhead | Hin ]; [ contradiction | ].
        destruct (IHin Hin) as [ f [ Hfind [ Hf Hor ] ] ].
        exists f. auto.
      * intros Hnot. apply IHout. tauto.
Qed.

Lemma catalogue_labels_nonempty (type : string) :
  forallb (fun f => Str.nonempty (label f)) (fields_of type) = true.
Proof. unfold fields_of. now destruct (String.eqb type "attributes"). Qed.

(** X7: the key a mapping assigns under ([fieldLabel || internalField]) is,
    for a mapping whose field belongs to the catalogue of its category, the
    label of that field, which is a label of that catalogue and differs from
    the raw identifier and from [__proto__]; for any other mapping it is the
    raw [internalField].  The loop body for one mapping assigns the resolved
    value under that key.  On an object that has the prototype of an object
    literal, the assignment under a key other than [__proto__] succeeds and
    leaves the value as own property of that key; under [__proto__], when
    the object has no such own key, it creates no own property: it makes
    the value the prototype of the object when the value is an object or
    [null], and does nothing otherwise. *)
Theorem output_key_is_label_when_known (m : FieldMapping) :
  (field_in_category m ->
   In (out_key m) (map label (fields_of (internalType m)))
   /\ out_key m <> internalField m
   /\ out_key m <> "__proto__")
  /\ (~ field_in_category m -> out_key m = internalField m)
  /\ (forall source format acc,
        map_fields source format [m] acc
        = set_prop acc (out_key m) (mapped_value source format m))
  /\ (forall acc v,
        proto acc = Proto ObjectPrototype ->
        (out_key m <> "__proto__" ->
         exists acc',
           set_prop acc (out_key m) v = Ok acc'
           /\ field (entries acc') (out_key m) = v
           /\ proto acc' = Proto ObjectPrototype)
        /\ (out_key m = "__proto__" ->
            existsb (String.eqb "__proto__") (map fst (entries acc)) = false ->
            set_prop acc (out_key m) v
            = Ok (if object_or_null v then mkResultObject (entries acc) v
                  else acc))).
Proof.
  refine (conj _ (conj _ (conj _ _))).
  - unfold field_in_category, out_key, fieldLabel.
    destruct (label_lookup (fields_of (internalType m)) (internalField m)
                (catalogue_labels_nonempty (internalType m)))
      as [ Hknown _ ].
    intros Hin. destruct (Hknown Hin) as [ f [ Hfind [ Hf Hor ] ] ].
    rewrite Hfind. cbn [option_map]. rewrite Hor.
    split; [ now apply in_map | ].
    apply find_some in Hfind. destruct Hfind as [ _ Hvalue ].
    apply String.eqb_eq in Hvalue. rewrite <- Hvalue.
    revert Hf. unfold fields_of.
    destruct (String.eqb (internalType m) "attributes"); simpl;
      intros Hf; repeat (destruct Hf as [ <- | Hf ];
                         [ split; discriminate | ]);
      destruct Hf.
  - unfold field_in_category, out_key, fieldLabel.
    destruct (label_lookup (fields_of (internalType m)) (internalField m)
                (catalogue_labels_nonempty (internalType m)))
      as [ _ Hunknown ].
    intros Hnot. now rewrite (Hunknown Hnot).
  - intros source format acc. cbn [map_fields]. fold (out_key m).
    unfold mapped_value.
    destruct (extractValue_ok source (externalPath m) format) as [ v Hv ].
    rewrite Hv. cbn [bind].
    now destruct (set_prop acc (out_key m) v).
  - intros acc v Hproto. split.
    + intros Hkey. rewrite (set_prop_plain acc _ v Hproto Hkey).
      eexists. split; [ reflexivity | ]. cbn [entries proto].
      rewrite field_put, String.eqb_refl. split; reflexivity.
    + intros Hkey Hnone. unfold set_prop.
      rewrite has_key_map, Hkey, Hnone, Hproto. reflexivity.
Qed.

Lemma output_key_is_label_when_known_witness :
  In (out_key (mkFieldMapping "1" "3" "attributes" "region"))
     (map label (fields_of "attributes"))
  /\ out_key (mkFieldMapping "1" "3" "attributes" "region") <> "region"
  /\ out_key (mkFieldMapping "1" "3" "attributes" "region") <> "__proto__".
Proof.
  apply (proj1 (output_key_is_label_when_known
                  (mkFieldMapping "1" "3" "attributes" "region"))).
  unfold field_in_category. simpl. auto.
Defined.

(** X8: two mappings whose fields belong to their categories write the same
    output key only when they name the same field. *)
Theorem output_keys_collide_only_on_same_field (m1 m2 : FieldMapping) :
  field_in_category m1 ->
  field_in_category m2 ->
  out_key m1 = out_key m2 ->
  internalField m1 = internalField m2.
Proof.
  destruct m1 as [ i1 p1 t1 f1 ], m2 as [ i2 p2 t2 f2 ].
  unfold field_in_category, out_key, fieldLabel, fields_of. simpl.
  destruct (String.eqb t1 "attributes"), (String.eqb t2 "attributes"); simpl;
    intros H1 H2;
    repeat (destruct H1 as [ <- | H1 ]; [ | ]); try destruct H1;
    repeat (destruct H2 as [ <- | H2 ]; [ | ]); try destruct H2;
    simpl; intros Hkey; first [ reflexivity | discriminate Hkey ].
Qed.

Lemma output_keys_collide_only_on_same_field_witness :
  internalField (mkFieldMapping "1" "3" "attributes" "region")
  = internalField (mkFieldMapping "2" "7" "attributes" "region").
Proof.
  apply output_keys_collide_only_on_same_field.
  - unfold field_in_category. simpl. auto.
  - unfold field_in_category. simpl. auto.
  - reflexivity.
Defined.

(** What a read finds on a keyed-mapping without the own key: the prototype
    under [__proto__], a member of [Object.prototype] under its name, and
    [undefined] otherwise. *)
Lemma read_missing (kvs : list (string * value)) (key : string) :
  Js.has_own kvs key = false ->
  Js.read (VObj kvs) key
  = if String.eqb key "__proto__" then Proto ObjectPrototype
    else if Js.is_member ObjectPrototype key
         then Builtin ObjectPrototype key
         else J VUndefined.
Proof.
  intros Hmissing. unfold Js.read, Js.own_prop. rewrite Hmissing.
  destruct (String.eqb key "__proto__"); [ reflexivity | ].
  unfold Js.inherited, Js.prototype_of.
  destruct (Js.is_member ObjectPrototype key); [ reflexivity | ].
  now destruct (String.eqb key "length").
Qed.

Lemma directory_entry (key name : string) :
  In (key, name) FAKE_INTERNAL_ENTITY_MAP ->
  Js.read directory_object key = J (VStr name) /\ Str.nonempty name = true.
Proof.
  intros Hin. split.
  - unfold directory_object.
    assert (Hentry : In (key, VStr name)
                       (map (fun entry => (fst entry, VStr (snd entry)))
                          FAKE_INTERNAL_ENTITY_MAP)).
    { apply in_map_iff. now exists (key, name). }
    rewrite (read_own _ _ (has_own_in _ _ _ Hentry)).
    assert (Hkeys : distinct
                      (map fst (map (fun entry : string * string =>
                                       (fst entry, VStr (snd entry)))
                                  FAKE_INTERNAL_ENTITY_MAP)) = true)
      by reflexivity.
    now rewrite (own_of_distinct _ key (VStr name) Hkeys Hentry).
  - assert (Hnames : forallb (fun kv => Str.nonempty (snd kv))
                       FAKE_INTERNAL_ENTITY_MAP = true) by reflexivity.
    rewrite forallb_forall in Hnames. exact (Hnames _ Hin).
Qed.

Lemma directory_listed (key : string) :
  match directory_object with
  | VObj kvs =>
      Js.has_own kvs key = true ->
      exists name, In (key, name) FAKE_INTERNAL_ENTITY_MAP
  | _ => True
  end.
Proof.
  unfold directory_object, Js.has_own. intros Hown.
  apply existsb_exists in Hown. destruct Hown as [ [ k v ] [ Hin Hk ] ].
  apply in_map_iff in Hin. destruct Hin as [ [ k' name ] [ Heq Hin ] ].
  simpl in Heq, Hk. apply String.eqb_eq in Hk. inversion Heq; subst.
  now exists name.
Qed.

(** X9: the display name of an entity key is never a falsy value.  It is the
    name the directory lists for the key; for a key the directory does not
    list it is ["Property "] followed by the key, unless the key names
    something every object inherits: for a member of [Object.prototype]
    (such as [constructor] or [toString]) the result is that built-in
    function and for [__proto__] it is [Object.prototype] itself. *)
Theorem org_name_of_key (key : string) :
  Js.truthy (getOrgNameFromKey key) = true
  /\ (forall name, In (key, name) FAKE_INTERNAL_ENTITY_MAP ->
                   getOrgNameFromKey key = VStr name)
  /\ ((forall name, ~ In (key, name) FAKE_INTERNAL_ENTITY_MAP) ->
      key <> "__proto__" ->
      Js.is_member ObjectPrototype key = false ->
      getOrgNameFromKey key = VStr ("Property " ++ key))
  /\ (Js.is_member ObjectPrototype key = true ->
      getOrgNameFromKey key = Builtin ObjectPrototype key)
  /\ getOrgNameFromKey "__proto__" = Proto ObjectPrototype.
Proof.
  pose proof (directory_listed key) as Hlisted.
  unfold getOrgNameFromKey, Js.or.
  unfold directory_object in Hlisted |- *.
  set (kvs := map (fun entry => (fst entry, VStr (snd entry)))
                FAKE_INTERNAL_ENTITY_MAP) in *.
  refine (conj _ (conj _ (conj _ (conj _ _)))).
  - destruct (Js.has_own kvs key) eqn:Hown.
    + destruct (Hlisted eq_refl) as [ name Hin ].
      destruct (directory_entry key name Hin) as [ Hread Hname ].
      unfold directory_object in Hread. fold kvs in Hread.
      rewrite Hread. cbn [Js.truthy]. rewrite Hname. exact Hname.
    + rewrite (read_missing kvs key Hown).
      destruct (String.eqb key "__proto__"); [ reflexivity | ].
      destruct (Js.is_member ObjectPrototype key); reflexivity.
  - intros name Hin.
    destruct (directory_entry key name Hin) as [ Hread Hname ].
    unfold directory_object in Hread. fold kvs in Hread.
    rewrite Hread. cbn [Js.truthy]. now rewrite Hname.
  - intros Habsent Hproto Hmember.
    assert (Hown : Js.has_own kvs key = false).
    { destruct (Js.has_own kvs key); [ | reflexivity ].
      destruct (Hlisted eq_refl) as [ name Hin ].
      now apply Habsent in Hin. }
    rewrite (read_missing kvs key Hown), Hmember.
    apply String.eqb_neq in Hproto. rewrite Hproto. reflexivity.
  - intros Hmember. unfold Js.is_member in Hmember.
    apply existsb_exists in Hmember. destruct Hmember as [ k [ Hin Hk ] ].
    apply String.eqb_eq in Hk. subst k.
    cbn [Js.members In] in Hin.
    repeat (destruct Hin as [ <- | Hin ]; [ reflexivity | ]).
    destruct Hin.
  - reflexivity.
Qed.

Lemma with_mappings_same (cfg : MappingConfig) :
  with_mappings cfg (mappings cfg) = cfg.
Proof. now destruct cfg. Qed.

(** X10: removing the mapping that [addMapping] has just appended, by its
    identifier, gives the configuration back, provided no earlier mapping
    carries that identifier. *)
Theorem removeMapping_undoes_addMapping (uuid : string) (cfg : MappingConfig) :
  (forall m, In m (mappings cfg) -> id m <> uuid) ->
  removeMapping uuid (addMapping uuid cfg) = cfg.
Proof.
  intros Hfresh. unfold removeMapping, addMapping, with_mappings. simpl.
  rewrite filter_app. simpl. rewrite String.eqb_refl. simpl.
  rewrite app_nil_r, filter_all.
  - now destruct cfg.
  - apply forallb_forall. intros m Hin. apply negb_true_iff.
    apply String.eqb_neq. now apply Hfresh.
Qed.

Lemma removeMapping_undoes_addMapping_witness :
  removeMapping "fresh" (addMapping "fresh" initial_mappingConfig)
  = initial_mappingConfig.
Proof.
  apply removeMapping_undoes_addMapping.
  intros m Hin. simpl in Hin.
  destruct Hin as [ <- | [ <- | [] ] ]; discriminate.
Defined.

(** X11: [removeMapping] keeps exactly the mappings with another identifier
    (all with the given one go, also when several share it), keeps every
    field inside its category, and changes nothing when no mapping has the
    identifier. *)
Theorem removeMapping_removes_every_match (id' : string) (cfg : MappingConfig) :
  (forall m, In m (mappings (removeMapping id' cfg))
             <-> In m (mappings cfg) /\ id m <> id')
  /\ (config_ok cfg -> config_ok (removeMapping id' cfg))
  /\ ((forall m, In m (mappings cfg) -> id m <> id') ->
      removeMapping id' cfg = cfg).
Proof.
  refine (conj _ (conj _ _)).
  - intros m. simpl. rewrite filter_In, negb_true_iff, String.eqb_neq. tauto.
  - unfold config_ok. simpl. intros Hok.
    apply Forall_forall. intros m Hin. apply filter_In in Hin.
    rewrite Forall_forall in Hok. now apply Hok.
  - intros Habsent. unfold removeMapping. rewrite filter_all.
    + apply with_mappings_same.
    + apply forallb_forall. intros m Hin. apply negb_true_iff.
      apply String.eqb_neq. now apply Habsent.
Qed.

Lemma removeMapping_removes_every_match_witness :
  config_ok (removeMapping "1" initial_mappingConfig).
Proof.
  apply (proj1 (proj2 (removeMapping_removes_every_match "1" initial_mappingConfig))).
  unfold config_ok. simpl.
  constructor; [ unfold field_in_category; simpl; auto | ].
  constructor; [ unfold field_in_category; simpl; auto | constructor ].
Defined.

(** X12: [updateMapping] never changes the number of mappings, leaves every
    mapping with another identifier in its place unchanged, and changes
    nothing when no mapping has the identifier. *)
Theorem updateMapping_touches_only_its_id (id' : string) (field : FieldKey)
  (v : string) (cfg : MappingConfig) :
  List.length (mappings (updateMapping id' field v cfg))
  = List.length (mappings cfg)
  /\ (forall i m, nth_error (mappings cfg) i = Some m -> id m <> id' ->
        nth_error (mappings (updateMapping id' field v cfg)) i = Some m)
  /\ ((forall m, In m (mappings cfg) -> id m <> id') ->
      updateMapping id' field v cfg = cfg).
Proof.
  refine (conj _ (conj _ _)).
  - simpl. apply length_map.
  - intros i m Hnth Hid. simpl. rewrite nth_error_map, Hnth. simpl.
    apply String.eqb_neq in Hid. now rewrite Hid.
  - intros Habsent. unfold updateMapping.
    transitivity (with_mappings cfg (mappings cfg));
      [ | apply with_mappings_same ].
    f_equal. transitivity (map (fun m => m) (mappings cfg));
      [ | apply map_id ].
    apply map_ext_in. intros m Hin.
    apply Habsent, String.eqb_neq in Hin. now rewrite Hin.
Qed.

Lemma updateMapping_touches_only_its_id_witness :
  nth_error (mappings (updateMapping "1" K_externalPath "5" initial_mappingConfig)) 1
  = Some (mkFieldMapping "2" "19" "data" "occupancy").
Proof.
  apply (proj1 (proj2 (updateMapping_touches_only_its_id
                         "1" K_externalPath "5" initial_mappingConfig))).
  - reflexivity.
  - discriminate.
Defined.

(** X13: from a step between 1 and 4 both navigation handlers lead to a step
    between 1 and 4; Previous undoes Next from steps 1 to 3, Next undoes
    Previous from steps 2 and 3, Next does nothing on step 4 and Previous
    nothing on step 1. *)
Theorem wizard_step_stays_in_range (currentStep : Z) :
  (1 <= currentStep <= 4)%Z ->
  (1 <= handleNext currentStep <= 4)%Z
  /\ (1 <= handlePrevious currentStep <= 4)%Z
  /\ (currentStep <= 3 -> handlePrevious (handleNext currentStep) = currentStep)%Z
  /\ (2 <= currentStep <= 3 -> handleNext (handlePrevious currentStep) = currentStep)%Z
  /\ handleNext 4 = 4%Z
  /\ handlePrevious 1 = 1%Z.
Proof.
  intros Hrange. unfold handleNext, handlePrevious.
  repeat match goal with
         | |- context [(?a <? ?b)%Z] => destruct (Z.ltb_spec a b)
         | |- context [(?a =? ?b)%Z] => destruct (Z.eqb_spec a b)
         end; repeat split; try lia.
Qed.

(** ** Parts of an address *)

Lemma split_pieces_free (sep : ascii) (s : string) :
  Forall (fun piece => Str.mem sep piece = false) (Str.split sep s).
Proof.
  induction s as [ | c s IH ]; simpl.
  - repeat constructor.
  - destruct (Ascii.eqb c sep) eqn:Hc.
    + constructor; [ reflexivity | exact IH ].
    + destruct (Str.split sep s) as [ | piece pieces ].
      * constructor; [ simpl; now rewrite Hc | constructor ].
      * inversion IH as [ | ? ? Hpiece Hpieces ]; subst.
        constructor; [ simpl; now rewrite Hc, Hpiece | exact Hpieces ].
Qed.

(** X14: whatever the address, none of its parts is empty and none contains
    a dot. *)
Theorem path_parts_nonempty_dotfree (path : string) :
  Forall (fun part => Str.nonempty part = true /\ Str.mem "." part = false)
    (path_parts path).
Proof.
  unfold path_parts. apply Forall_forall. intros part Hin.
  apply filter_In in Hin. destruct Hin as [ Hin Hnonempty ].
  split; [ exact Hnonempty | ].
  pose proof (split_pieces_free "." (strip_root path)) as Hfree.
  rewrite Forall_forall in Hfree. now apply Hfree.
Qed.

Lemma strip_root_other (c : ascii) (rest : string) :
  Ascii.eqb c "$" = false -> strip_root (String c rest) = String c rest.
Proof.
  destruct c as [ [] [] [] [] [] [] [] [] ]; intros Hc;
    first [ discriminate Hc | reflexivity ].
Qed.

Lemma strip_root_dollar (c : ascii) (rest : string) :
  Ascii.eqb c "." = false ->
  strip_root (String "$" (String c rest)) = String c rest.
Proof.
  destruct c as [ [] [] [] [] [] [] [] [] ]; intros Hc;
    first [ discriminate Hc | reflexivity ].
Qed.

Lemma path_parts_root_optional (path : string) :
  starts_with_root path = false ->
  path_parts ("$" ++ path) = path_parts path
  /\ path_parts ("$." ++ path) = path_parts path.
Proof.
  intros Hroot. destruct path as [ | c rest ]; [ split; reflexivity | ].
  simpl in Hroot. unfold path_parts.
  change (strip_root ("$." ++ String c rest)) with (String c rest).
  rewrite (strip_root_other c rest Hroot). split; [ | reflexivity ].
  change ("$" ++ String c rest) with (String "$" (String c rest)).
  destruct (Ascii.eqb c ".") eqn:Hdot.
  - apply Ascii.eqb_eq in Hdot. subst c. reflexivity.
  - now rewrite (strip_root_dollar c rest Hdot).
Qed.

(** X15: the root sentinel is optional: an address that does not itself
    start with [$] resolves alike with [$] or [$.] put in front of it. *)
Theorem root_sentinel_is_optional (data : value) (path : string) :
  starts_with_root path = false ->
  extractValue data ("$" ++ path) Json = extractValue data path Json
  /\ extractValue data ("$." ++ path) Json = extractValue data path Json.
Proof.
  intros Hroot. destruct (path_parts_root_optional path Hroot) as [ H1 H2 ].
  unfold extractValue. now rewrite H1, H2.
Qed.

Lemma root_sentinel_is_optional_witness :
  extractValue (VObj [("a", VNum (Int 1))]) ("$" ++ "a") Json
  = extractValue (VObj [("a", VNum (Int 1))]) "a" Json
  /\ extractValue (VObj [("a", VNum (Int 1))]) ("$." ++ "a") Json
     = extractValue (VObj [("a", VNum (Int 1))]) "a" Json.
Proof.
  exact (root_sentinel_is_optional (VObj [("a", VNum (Int 1))]) "a" eq_refl).
Defined.

(** ** Missing keys *)

(** A key that is an own key, or that names nothing every object inherits,
    is read as the own value, [undefined] without one. *)
Lemma read_plain (kvs : list (string * value)) (key : string) :
  Js.has_own kvs key = true
  \/ (key <> "__proto__" /\ Js.is_member ObjectPrototype key = false) ->
  Js.read (VObj kvs) key = J (Js.own kvs key).
Proof.
  intros Hkey. destruct (Js.has_own kvs key) eqn:Hown.
  - now apply read_own.
  - destruct Hkey as [ Habsurd | [ Hproto Hmember ] ];
      [ discriminate Habsurd | ].
    rewrite (read_missing kvs key Hown), Hmember, (own_missing kvs key Hown).
    apply String.eqb_neq in Hproto. now rewrite Hproto.
Qed.

(** X16: on a keyed-mapping, an address of plain keys whose first key is
    missing or holds [null] resolves to that missing value itself when the
    key is the last segment, and to [null] when further segments follow.
    A missing key here is one that is no own key and names nothing every
    object inherits: neither [__proto__] nor a member of
    [Object.prototype]. *)
Theorem missing_key_resolution (kvs : list (string * value)) (key : string)
  (rest : list string) :
  forallb plain_key (key :: rest) = true ->
  Js.nullish (Js.own kvs key) = true ->
  Js.has_own kvs key = true
  \/ (key <> "__proto__" /\ Js.is_member ObjectPrototype key = false) ->
  extractValue (VObj kvs) (render "$" (map Key (key :: rest))) Json
  = Ok (match rest with
        | [] => Js.own kvs key
        | _ :: _ => VNull
        end).
Proof.
  intros Hplain Hmissing Hkey. unfold extractValue. cbn [Js.truthy negb].
  rewrite (path_parts_of_keys (key :: rest) Hplain).
  cbn [forallb] in Hplain. apply andb_prop in Hplain.
  destruct Hplain as [ Hplainkey _ ]. apply plain_key_parts in Hplainkey.
  destruct Hplainkey as [ _ [ _ Hopen ] ].
  cbn [walk]. rewrite (step_object_plain kvs key Hopen).
  rewrite (read_plain kvs key Hkey).
  destruct rest as [ | next rest ]; [ reflexivity | ].
  cbn [walk]. unfold step. rewrite Hmissing. reflexivity.
Qed.

Lemma missing_key_resolution_witness :
  extractValue (VObj [("a", VNum (Int 1))]) "$.b" Json = Ok VUndefined
  /\ extractValue (VObj [("a", VNum (Int 1))]) "$.b.c" Json = Ok VNull.
Proof.
  split.
  - apply (missing_key_resolution [("a", VNum (Int 1))] "b" [] eq_refl eq_refl).
    right. split; [ discriminate | reflexivity ].
  - apply (missing_key_resolution [("a", VNum (Int 1))] "b" ["c"] eq_refl
             eq_refl).
    right. split; [ discriminate | reflexivity ].
Defined.

(** An inherited member is followed like an own one. *)
Example inherited_member_is_followed :
  extractValue (VObj [("a", VNum (Int 1))]) "$.constructor" Json
  = Ok (Builtin ObjectPrototype "constructor")
  /\ extractValue (VObj [("a", VNum (Int 1))]) "$.__proto__.b" Json
     = Ok VUndefined.
Proof. split; reflexivity. Qed.

(** ** Enumerated paths extend the prefix *)

Lemma render_from (prefix : string) (segs : list segment) :
  render prefix segs = prefix ++ render "" segs.
Proof.
  unfold render. revert prefix.
  induction segs as [ | sg segs IH ]; intros prefix; simpl.
  - now rewrite append_empty_r.
  - rewrite IH, (IH (render_segment sg)). now rewrite append_assoc.
Qed.

Lemma render_app (prefix : string) (l1 l2 : list segment) :
  render prefix (l1 ++ l2) = render (render prefix l1) l2.
Proof. unfold render. apply fold_left_app. Qed.

Lemma catalog_entries_nonempty (d : value) (segs : list segment) :
  In segs (catalog d) -> exists sg rest, segs = sg :: rest.
Proof.
  intros Hin. destruct d as [ | | b | n | s | xs | kvs ];
    try (now destruct Hin).
  - apply catalog_array_in in Hin. destruct Hin as [ rest -> ]. eauto.
  - apply catalog_object_in in Hin.
    destruct Hin as [ key [ child [ rest [ _ [ -> _ ] ] ] ] ]. eauto.
Qed.

(** X17: every enumerated path is the prefix followed by at least one
    segment of a catalogue entry; the bare prefix is never enumerated. *)
Theorem enumerated_paths_extend_prefix (d : value) (prefix p : string) :
  In p (extractJsonPaths d prefix) ->
  exists sg rest,
    In (sg :: rest) (catalog d)
    /\ p = prefix ++ render_segment sg ++ render "" rest.
Proof.
  rewrite extractJsonPaths_catalog. intros Hin.
  apply in_map_iff in Hin. destruct Hin as [ segs [ Hp Hsegs ] ].
  destruct (catalog_entries_nonempty d segs Hsegs) as [ sg [ rest -> ] ].
  exists sg, rest. split; [ exact Hsegs | ].
  rewrite <- Hp, render_from. f_equal.
  rewrite render_cons. simpl. apply render_from.
Qed.

Lemma enumerated_paths_extend_prefix_witness :
  exists sg rest,
    In (sg :: rest) (catalog (VObj [("a", VArr [])]))
    /\ "$.a[*]" = "$" ++ render_segment sg ++ render "" rest.
Proof.
  apply (enumerated_paths_extend_prefix (VObj [("a", VArr [])]) "$" "$.a[*]").
  simpl. auto.
Defined.

(** ** Wildcard paths of the catalogue *)

Lemma split_never_empty (sep : ascii) (s : string) : Str.split sep s <> [].
Proof.
  destruct s as [ | c s ]; simpl; [ discriminate | ].
  destruct (Ascii.eqb c sep); [ discriminate | ].
  destruct (Str.split sep s); discriminate.
Qed.

Lemma split_glued (sep : ascii) (a s : string) :
  Str.mem sep a = false ->
  Str.split sep (a ++ s)
  = match Str.split sep s with
    | piece :: pieces => (a ++ piece) :: pieces
    | [] => [a]
    end.
Proof.
  induction a as [ | c a IH ]; intros Hfree; simpl in *.
  - pose proof (split_never_empty sep s) as Hne.
    now destruct (Str.split sep s).
  - apply orb_false_elim in Hfree. destruct Hfree as [ Hc Ha ].
    rewrite Hc, (IH Ha). now destruct (Str.split sep s).
Qed.

Lemma split_after_wildcard (rest : list segment) :
  key_or_end rest = true ->
  exists pieces, Str.split "." ("[*]" ++ render "" rest) = "[*]" :: pieces.
Proof.
  intros Hrest. rewrite split_glued by reflexivity.
  destruct rest as [ | [ key | ] rest ]; try discriminate Hrest.
  - exists []. reflexivity.
  - rewrite render_cons, render_from.
    change (("" ++ render_segment (Key key)) ++ render "" rest)
      with (String "." (key ++ render "" rest)).
    cbn [Str.split]. rewrite Ascii.eqb_refl. eauto.
Qed.

Lemma split_dotted_suffix (init : list string) (lastk suffix first : string)
  (pieces : list string) :
  forallb (fun k => negb (Str.mem "." k)) (init ++ [lastk]) = true ->
  Str.split "." suffix = first :: pieces ->
  exists body,
    dotted (init ++ [lastk]) ++ suffix = String "." body
    /\ Str.split "." body = (init ++ (lastk ++ first)%string :: pieces)%list.
Proof.
  intros Hfree Hsuffix. induction init as [ | k init IH ].
  - exists (lastk ++ suffix). split.
    + simpl. now rewrite append_empty_r.
    + simpl in Hfree. rewrite andb_true_r in Hfree.
      apply negb_true_iff in Hfree.
      now rewrite (split_glued "." lastk suffix Hfree), Hsuffix.
  - cbn [app forallb] in Hfree. apply andb_prop in Hfree.
    destruct Hfree as [ Hk Hrest ]. apply negb_true_iff in Hk.
    destruct (IH Hrest) as [ body [ Hbody Hsplit ] ].
    exists (k ++ String "." body). split.
    + cbn [app dotted].
      change (("." ++ k ++ dotted (init ++ [lastk])) ++ suffix)
        with (String "." ((k ++ dotted (init ++ [lastk])) ++ suffix)).
      now rewrite append_assoc, Hbody.
    + rewrite (split_before_separator "." k body Hk), Hsplit. reflexivity.
Qed.

Lemma walk_to_array (keys : list string) :
  forall d rest,
    well_formed d = true ->
    In (map Key keys ++ Star :: rest)%list (catalog d) ->
    forallb plain_key keys = true ->
    exists xs, index_chain d keys = Ok (VArr xs)
               /\ walk d keys = Ok (Next (VArr xs)).
Proof.
  induction keys as [ | key keys IH ]; intros d rest Hwf Hin Hplain.
  - destruct d as [ | | b | n | s | xs | kvs ]; try (now destruct Hin).
    + exists xs. split; reflexivity.
    + apply catalog_object_in in Hin.
      destruct Hin as [ k [ c [ t [ _ [ Ht _ ] ] ] ] ]. discriminate Ht.
  - destruct d as [ | | b | n | s | xs | kvs ]; try (now destruct Hin).
    + apply catalog_array_in in Hin. destruct Hin as [ t Ht ]. discriminate Ht.
    + apply catalog_object_in in Hin.
      destruct Hin as [ k [ child [ t [ Hkv [ Hsegs Ht ] ] ] ] ].
      simpl in Hsegs. inversion Hsegs; subst k t. clear Hsegs.
      destruct (well_formed_object _ _ _ Hwf Hkv) as [ Hdistinct Hchild ].
      cbn [forallb] in Hplain. apply andb_prop in Hplain.
      destruct Hplain as [ Hkey Hrest ].
      apply plain_key_parts in Hkey. destruct Hkey as [ _ [ _ Hopen ] ].
      cbn [index_chain walk]. rewrite (step_object_plain _ _ Hopen).
      unfold Js.get_prop. cbn [Js.nullish Js.is_null bind].
      rewrite (read_own _ _ (has_own_in _ _ _ Hkv)).
      rewrite (own_of_distinct _ _ _ Hdistinct Hkv).
      destruct Ht as [ Hnil | Hdeeper ].
      * destruct keys; discriminate Hnil.
      * apply (IH child rest Hchild Hdeeper Hrest).
Qed.

Lemma plain_step_to_array (current : jsval) (key : string) (xs : list value) :
  plain_key key = true ->
  step current key = Ok (Next (VArr xs)) ->
  Js.nullish current = false /\ descend_key current key = Ok (VArr xs).
Proof.
  intros Hplain Hstep. apply plain_key_parts in Hplain.
  destruct Hplain as [ Hnonempty [ _ Hopen ] ].
  unfold step in Hstep. rewrite (arrayMatch_plain key Hopen) in Hstep.
  destruct (Js.nullish current); [ discriminate Hstep | ].
  split; [ reflexivity | ].
  unfold descend_key. rewrite Hnonempty. cbn [andb].
  destruct (is_object current) eqn:Hobject.
  - destruct (Js.get_prop current key) as [ child | e ]; simpl in Hstep;
      [ | discriminate Hstep ].
    now inversion Hstep.
  - inversion Hstep; subst current. discriminate Hobject.
Qed.

(** X18: a catalogue path that descends through plain keys, the last one
    made of word characters, to its first wildcard, and continues with
    nothing or with a keyed descent, resolves to the whole sequence found at
    those keys: the segments after the wildcard are not followed. *)
Theorem catalog_wildcard_path_resolves_to_array (d : value)
  (keys : list string) (rest : list segment) :
  well_formed d = true ->
  In (map Key keys ++ Star :: rest)%list (catalog d) ->
  forallb plain_key keys = true ->
  Str.all Str.is_word (last keys "") = true ->
  key_or_end rest = true ->
  exists xs,
    index_chain d keys = Ok (VArr xs)
    /\ extractValue d (render "$" (map Key keys ++ Star :: rest)) Json
       = Ok (VArr xs).
Proof.
  intros Hwf Hin Hplain Hword Hrest.
  destruct (walk_to_array keys d rest Hwf Hin Hplain) as [ xs [ Hindex Hwalk ] ].
  exists xs. split; [ exact Hindex | ].
  assert (Htruthy : Js.truthy d = true)
    by (destruct d; try reflexivity; destruct Hin).
  destruct (split_after_wildcard rest Hrest) as [ pieces Hpieces ].
  unfold extractValue. rewrite Htruthy. cbn [negb].
  rewrite render_app, render_keys, render_cons, render_from.
  change (render_segment Star) with "[*]".
  rewrite !append_assoc.
  destruct keys as [ | key0 keys0 ] using rev_ind.
  - unfold path_parts.
    change (strip_root ("$" ++ dotted [] ++ "[*]" ++ render "" rest))
      with ("[*]" ++ render "" rest).
    rewrite Hpieces. cbn [filter Str.nonempty walk].
    simpl in Hwalk. inversion Hwalk; subst d. reflexivity.
  - clear IHkeys0. rename key0 into lastk, keys0 into init.
    rewrite last_last in Hword.
    assert (Hfree : forallb (fun k => negb (Str.mem "." k)) (init ++ [lastk])
                    = true).
    { revert Hplain. apply forallb_weaken. intros k Hk.
      apply plain_key_parts in Hk. apply negb_true_iff. tauto. }
    destruct (split_dotted_suffix init lastk ("[*]" ++ render "" rest)
                "[*]" pieces Hfree Hpieces) as [ body [ Hbody Hsplit ] ].
    unfold path_parts. rewrite Hbody.
    change (strip_root ("$" ++ String "." body)) with body.
    rewrite Hsplit, filter_app.
    rewrite forallb_app in Hplain. apply andb_prop in Hplain.
    destruct Hplain as [ Hinit Hlast ].
    cbn [forallb] in Hlast. rewrite andb_true_r in Hlast.
    rewrite (filter_all Str.nonempty init)
      by (revert Hinit; apply forallb_weaken; intros k Hk;
          now apply plain_key_parts in Hk).
    assert (Hpart : Str.nonempty (lastk ++ "[*]") = true)
      by (destruct lastk; reflexivity).
    cbn [filter]. rewrite Hpart.
    rewrite walk_app in Hwalk. rewrite walk_app.
    destruct (walk d init) as [ [ current | v ] | e ]; try discriminate Hwalk.
    cbn [walk] in Hwalk.
    destruct (step current lastk) as [ [ reached | v ] | e ] eqn:Hstep;
      try discriminate Hwalk.
    inversion Hwalk; subst reached.
    destruct (plain_step_to_array current lastk xs Hlast Hstep)
      as [ Hcurrent Hreached ].
    cbn [walk]. unfold step.
    rewrite Hcurrent, (arrayMatch_wildcard lastk Hword), Hreached.
    reflexivity.
Qed.

Lemma catalog_wildcard_path_resolves_to_array_witness :
  let d := VObj [("data", VArr [VObj [("id", VStr "RENEW")]])] in
  exists xs,
    index_chain d ["data"] = Ok (VArr xs)
    /\ extractValue d "$.data[*].id" Json = Ok (VArr xs).
Proof.
  cbv zeta.
  refine (catalog_wildcard_path_resolves_to_array
            (VObj [("data", VArr [VObj [("id", VStr "RENEW")]])])
            ["data"] [Key "id"] eq_refl _ eq_refl eq_refl eq_refl).
  simpl. auto.
Defined.

(** ** Bracket indices and the classifier *)

Lemma mem_app (a : ascii) (s1 s2 : string) :
  Str.mem a (s1 ++ s2) = Str.mem a s1 || Str.mem a s2.
Proof.
  induction s1 as [ | c s1 IH ]; simpl; [ reflexivity | ].
  now rewrite IH, orb_assoc.
Qed.

Lemma word_not_dot (c : ascii) : Str.is_word c = true -> Ascii.eqb c "." = false.
Proof. destruct c as [ [] [] [] [] [] [] [] [] ]; intros H; first [ reflexivity | discriminate H ]. Qed.

Lemma digit_not_dot (c : ascii) : Str.is_digit c = true -> Ascii.eqb c "." = false.
Proof. destruct c as [ [] [] [] [] [] [] [] [] ]; intros H; first [ reflexivity | discriminate H ]. Qed.

Lemma all_excludes (p : ascii -> bool) (a : ascii) (s : string) :
  (forall c, p c = true -> Ascii.eqb c a = false) ->
  Str.all p s = true -> Str.mem a s = false.
Proof.
  intros Hp. induction s as [ | c s IH ]; simpl; [ reflexivity | ].
  intros Hall. apply andb_prop in Hall. destruct Hall as [ Hc Hs ].
  now rewrite (Hp c Hc), (IH Hs).
Qed.

Lemma strip_closing_app (s : string) : Str.strip_closing (s ++ "]") = Some s.
Proof.
  induction s as [ | c s IH ]; [ reflexivity | ].
  cbn [append Str.strip_closing]. rewrite IH.
  destruct s; reflexivity.
Qed.

Lemma index_text_digits (i : nat) :
  Str.all Str.is_digit (Js.num_to_string (Int (Z.of_nat i))) = true
  /\ Str.nonempty (Js.num_to_string (Int (Z.of_nat i))) = true.
Proof.
  destruct (Z.of_nat i) as [ | p | p ] eqn:Hz; [ split; reflexivity | | lia ].
  cbn [Js.num_to_string Z.to_int NilZero.string_of_int].
  unfold NilZero.string_of_uint.
  pose proof (DecimalPos.Unsigned.to_uint_nonnil p) as Hnil.
  destruct (Pos.to_uint p) eqn:Hu; try contradiction; rewrite <- Hu;
    (split; [ apply numeral_digits | rewrite Hu; reflexivity ]).
Qed.

Lemma arrayMatch_index (key text : string) :
  Str.all Str.is_word key = true ->
  Str.all Str.is_digit text = true ->
  Str.nonempty text = true ->
  arrayMatch (key ++ "[" ++ text ++ "]") = Some (key, text)
  /\ String.eqb text "*" = false.
Proof.
  intros Hword Hdigits Hnonempty. split.
  - unfold arrayMatch.
    change (key ++ "[" ++ text ++ "]") with (key ++ String "[" (text ++ "]")).
    rewrite (span_word_bracket key (text ++ "]") Hword).
    rewrite Ascii.eqb_refl, strip_closing_app, Hdigits, Hnonempty.
    now rewrite orb_true_r.
  - apply String.eqb_neq. intros ->. discriminate Hdigits.
Qed.

Lemma index_part_dotfree (key text : string) :
  Str.all Str.is_word key = true ->
  Str.all Str.is_digit text = true ->
  Str.mem "." (key ++ "[" ++ text ++ "]") = false.
Proof.
  intros Hword Hdigits.
  rewrite mem_app, (all_excludes Str.is_word "." key word_not_dot Hword).
  change ("[" ++ text ++ "]") with (String "[" (text ++ "]")).
  cbn [Str.mem orb]. change (Ascii.eqb "[" ".") with false. cbn [orb].
  rewrite mem_app, (all_excludes Str.is_digit "." text digit_not_dot Hdigits).
  reflexivity.
Qed.

(** X19: the address [$.key[i]], for a non-empty key of word characters that
    holds a sequence, and the address [$[i]] on a sequence, resolve to the
    element at position [i], and to [undefined] past the end. *)
Theorem bracket_index_selects_element :
  (forall kvs key xs i,
      Str.nonempty key = true ->
      Str.all Str.is_word key = true ->
      Js.own kvs key = VArr xs ->
      extractValue (VObj kvs)
        ("$." ++ key ++ "[" ++ Js.num_to_string (Int (Z.of_nat i)) ++ "]") Json
      = Ok (nth i xs VUndefined))
  /\ (forall xs i,
        extractValue (VArr xs)
          ("$[" ++ Js.num_to_string (Int (Z.of_nat i)) ++ "]") Json
        = Ok (nth i xs VUndefined)).
Proof.
  split.
  - intros kvs key xs i Hnonempty Hword Hown.
    destruct (index_text_digits i) as [ Hdigits Htext ].
    destruct (arrayMatch_index key _ Hword Hdigits Htext) as [ Hmatch Hstar ].
    unfold extractValue, path_parts. cbn [Js.truthy negb].
    change (strip_root ("$." ++ key ++ "[" ++ Js.num_to_string (Int (Z.of_nat i)) ++ "]"))
      with (key ++ "[" ++ Js.num_to_string (Int (Z.of_nat i)) ++ "]").
    rewrite (split_without_separator "." _ (index_part_dotfree key _ Hword Hdigits)).
    cbn [filter].
    replace (Str.nonempty (key ++ "[" ++ Js.num_to_string (Int (Z.of_nat i)) ++ "]"))
      with true by (destruct key; [ discriminate Hnonempty | reflexivity ]).
    cbn [walk]. unfold step. cbn [Js.nullish]. rewrite Hmatch.
    unfold descend_key. rewrite Hnonempty.
    change (is_object (VObj kvs)) with true. cbn [andb].
    rewrite get_prop_total by reflexivity. cbn [bind].
    assert (Hhas : Js.has_own kvs key = true).
    { destruct (Js.has_own kvs key) eqn:Hhas; [ reflexivity | ].
      rewrite (own_missing kvs key Hhas) in Hown. discriminate Hown. }
    rewrite (read_own kvs key Hhas), Hown. cbn [Js.isArray].
    rewrite Hstar, parseInt_num_to_string.
    rewrite get_elem_array_nth. reflexivity.
  - intros xs i.
    destruct (index_text_digits i) as [ Hdigits Htext ].
    destruct (arrayMatch_index "" _ eq_refl Hdigits Htext) as [ Hmatch Hstar ].
    unfold extractValue, path_parts. cbn [Js.truthy negb].
    change (strip_root ("$[" ++ Js.num_to_string (Int (Z.of_nat i)) ++ "]"))
      with ("" ++ "[" ++ Js.num_to_string (Int (Z.of_nat i)) ++ "]").
    rewrite (split_without_separator "." _ (index_part_dotfree "" _ eq_refl Hdigits)).
    cbn [filter]. change (Str.nonempty ("" ++ "[" ++ Js.num_to_string (Int (Z.of_nat i)) ++ "]")) with true.
    cbn [walk]. unfold step. cbn [Js.nullish]. rewrite Hmatch.
    unfold descend_key. cbn [Str.nonempty andb bind Js.isArray].
    rewrite Hstar, parseInt_num_to_string, get_elem_array_nth. reflexivity.
Qed.

Lemma bracket_index_selects_element_witness :
  extractValue (VObj [("rows", VArr [VStr "a"; VStr "b"])]) "$.rows[1]" Json
  = Ok (VStr "b")
  /\ extractValue (VObj [("rows", VArr [VStr "a"; VStr "b"])]) "$.rows[12]" Json
     = Ok VUndefined.
Proof.
  split.
  - exact (proj1 bracket_index_selects_element
             [("rows", VArr [VStr "a"; VStr "b"])] "rows"
             [VStr "a"; VStr "b"] 1 eq_refl eq_refl eq_refl).
  - exact (proj1 bracket_index_selects_element
             [("rows", VArr [VStr "a"; VStr "b"])] "rows"
             [VStr "a"; VStr "b"] 12 eq_refl eq_refl eq_refl).
Defined.

(** X3: a document looks positional exactly when it is a non-empty sequence
    whose first element is no keyed-mapping; when it does not, the positional
    length is 0 and there are neither samples nor indices to offer; a
    positive positional length implies that it does. *)
Theorem classifier_agrees_with_statistics (stringify : value -> value)
  (d : value) :
  (isLikelyPositionalFormat d = true
   <-> exists first rest,
         d = VArr (first :: rest) /\ forall kvs, first <> VObj kvs)
  /\ (isLikelyPositionalFormat d = false ->
      getPositionalArrayLength d = 0
      /\ getPositionalSampleValues stringify d = []
      /\ getAvailableIndices d = [])
  /\ (0 < getPositionalArrayLength d -> isLikelyPositionalFormat d = true).
Proof.
  assert (Hno : forall v : value, Js.isArray v = false ->
                  getPositionalArrayLength v = 0).
  { intros v Hv. unfold getPositionalArrayLength.
    destruct (Js.truthy v); [ | reflexivity ].
    destruct v; try reflexivity; discriminate Hv. }
  unfold getAvailableIndices.
  destruct d as [ | | b | n | s | xs | kvs ];
    try (rewrite Hno by reflexivity;
         refine (conj _ (conj _ _));
         [ split; [ discriminate | intros [ f [ r [ Hd _ ] ] ]; discriminate Hd ]
         | intros _; repeat split
         | intros Hpos; inversion Hpos ]).
  destruct xs as [ | firstItem rest ].
  - refine (conj _ (conj _ _)).
    + split; [ discriminate | intros [ f [ r [ Hd _ ] ] ]; discriminate Hd ].
    + intros _. repeat split.
    + intros Hpos. inversion Hpos.
  - unfold isLikelyPositionalFormat, getPositionalArrayLength,
      getPositionalSampleValues.
    cbn [Js.truthy negb List.length Nat.eqb nth].
    destruct firstItem as [ | | b | n | s | ys | kvs ];
      cbn [Js.isArray]; eval_flat_test; cbv iota;
      (refine (conj _ (conj _ _));
       [ split;
         [ intros _; eexists; eexists; split;
           [ reflexivity | intros kvs' Heq; discriminate Heq ]
         | reflexivity ]
       | discriminate
       | reflexivity ]) ||
      (refine (conj _ (conj _ _));
       [ split;
         [ discriminate
         | intros [ f [ r [ Hd Hnot ] ] ]; inversion Hd; subst;
           exfalso; now apply (Hnot kvs) ]
       | intros _; repeat split
       | intros Hpos; inversion Hpos ]).
Qed.

(** X20: for a sequence whose first element is a sequence the catalogue
    enumerates the path [$[*][*]], and the resolver returns [undefined] for
    it: two wildcards in a row are read as one plain property name. *)
Theorem nested_sequence_path_is_not_followed (ys xs : list value) :
  In "$[*][*]" (extractJsonPaths (VArr (VArr ys :: xs)) "$")
  /\ extractValue (VArr (VArr ys :: xs)) "$[*][*]" Json = Ok VUndefined.
Proof.
  split; [ simpl; auto | reflexivity ].
Qed.

Lemma classifier_agrees_with_statistics_witness :
  isLikelyPositionalFormat
    (VArr [VNum (Int 1); VStr "RENEW"; VStr "Hotel"; VNum (Int 72)]) = true
  /\ getPositionalArrayLength (VObj [("data", VArr [])]) = 0.
Proof.
  split.
  - apply (proj1 (classifier_agrees_with_statistics (fun v => v)
                    (VArr [VNum (Int 1); VStr "RENEW"; VStr "Hotel";
                           VNum (Int 72)]))).
    exists (VNum (Int 1)), [VStr "RENEW"; VStr "Hotel"; VNum (Int 72)].
    split; [ reflexivity | discriminate ].
  - exact (proj1 (proj1 (proj2 (classifier_agrees_with_statistics (fun v => v)
                                  (VObj [("data", VArr [])]))) eq_refl)).
Defined.

Lemma wizard_step_stays_in_range_witness :
  (1 <= handleNext 3 <= 4)%Z /\ handlePrevious (handleNext 3) = 3%Z.
Proof.
  assert (Hrange : (1 <= 3 <= 4)%Z) by lia.
  pose proof (wizard_step_stays_in_range 3 Hrange) as [ Hnext [ _ [ Hback _ ] ] ].
  split; [ exact Hnext | apply Hback; lia ].
Defined.

Lemma offered_index_resolves_witness :
  exists i record rest (v : value),
    Int 1 = Int (Z.of_nat i)
    /\ records Positional
         (VArr [VArr [VNum (Int 1); VStr "RENEW"]; VArr [VNum (Int 2); VStr "HNLMC"]])
       = Ok (record :: rest)
    /\ extractValue record (Js.num_to_string (Int 1)) Positional = Ok v
    /\ nth i (getPositionalSampleValues (fun v => v)
                (VArr [VArr [VNum (Int 1); VStr "RENEW"];
                       VArr [VNum (Int 2); VStr "HNLMC"]])) VUndefined
       = sample (fun v => v) v.
Proof.
  apply (offered_index_resolves (fun v => v)
           (VArr [VArr [VNum (Int 1); VStr "RENEW"];
                  VArr [VNum (Int 2); VStr "HNLMC"]]) (Int 1)).
  simpl. auto.
Defined.


Lemma org_name_of_key_witness :
  getOrgNameFromKey "RENEW" = VStr "Hotel Renew"
  /\ getOrgNameFromKey "ZZZZZ" = VStr "Property ZZZZZ"
  /\ getOrgNameFromKey "constructor" = Builtin ObjectPrototype "constructor".
Proof.
  refine (conj _ (conj _ _)).
  - apply (proj1 (proj2 (org_name_of_key "RENEW"))).
    simpl. auto.
  - apply (proj1 (proj2 (proj2 (org_name_of_key "ZZZZZ")))).
    + intros name Hin. simpl in Hin.
      repeat (destruct Hin as [ Hin | Hin ]; [ discriminate Hin | ]).
      exact Hin.
    + discriminate.
    + reflexivity.
  - apply (proj1 (proj2 (proj2 (proj2 (org_name_of_key "constructor"))))).
    reflexivity.
Defined.
